(** * execute_mission_workflow.py: mission selection and the single-run workflow

    A shallow embedding of [src/execute_mission_workflow.py].

    - The [missions] table is a list of rows; the two SQL queries of [main]
      are values of a small query record, evaluated by [run_query]
      (WHERE .. IN, ORDER BY CASE .. END, rowid, LIMIT).
    - [main] is written in a monad of Python completions (normal, [return],
      raised exception) over the state of the outside world and a trace of
      the calls made and the lines printed.
    - [SQLiteClient] and [MissionRuntime] live in [cmos/context], which is
      not part of the sources at hand: [main] takes them as an interface
      ([Collaborators]). *)

From Stdlib Require Import ZArith List String Ascii Bool Lia Permutation.
Import ListNotations.

Local Open Scope string_scope.
Local Open Scope Z_scope.

(* ===================================================================== *)
(** * The missions table and the SQL the workflow runs on it *)
(* ===================================================================== *)

(** A row of table [missions]: the two columns the queries read, and the
    rowid SQLite gives every row. [status] is TEXT, compared with the
    default BINARY collation. *)
Record mission := mkMission {
  rowid : Z;
  id : string;
  status : string
}.

Definition table := list mission.

(** A result row of [SELECT id, status]: what [mission_row["id"]] and
    [mission_row["status"]] read. *)
Record row := mkRow {
  row_id : string;
  row_status : string
}.

(** [SELECT id, status FROM missions WHERE status IN (..)
     ORDER BY CASE status WHEN .. THEN .. END, rowid LIMIT ..] *)
Record select_query := mkQuery {
  where_status_in : list string;
  order_by_case : list (string * Z);
  limit : nat
}.

(** Query 1 of [main] (lines 37-45). *)
Definition new_work_query : select_query :=
  {| where_status_in := ["Queued"; "Not Started"];
     order_by_case := [("Queued", 0); ("Not Started", 1)];
     limit := 1 |}.

(** Query 2 of [main] (lines 48-56). *)
Definition active_query : select_query :=
  {| where_status_in := ["In Progress"; "Current"];
     order_by_case := [("In Progress", 0); ("Current", 1)];
     limit := 1 |}.

(** [status IN (v1, v2, ..)] *)
Definition sql_in (s : string) (vs : list string) : bool :=
  existsb (String.eqb s) vs.

(** [CASE status WHEN v THEN n .. END]: the first matching branch, NULL
    ([None]) when none matches, as there is no ELSE. *)
Fixpoint sql_case (s : string) (branches : list (string * Z)) : option Z :=
  match branches with
  | [] => None
  | (v, n) :: rest => if String.eqb s v then Some n else sql_case s rest
  end.

(** The ORDER BY key of a row: the CASE value, then the rowid. *)
Definition sort_key (q : select_query) (m : mission) : option Z * Z :=
  (sql_case (status m) (order_by_case q), rowid m).

(** Ascending order on a nullable integer: NULL sorts first. *)
Definition null_cmp (a b : option Z) : comparison :=
  match a, b with
  | None, None => Eq
  | None, Some _ => Lt
  | Some _, None => Gt
  | Some x, Some y => Z.compare x y
  end.

(** Two-term ORDER BY: the first term decides, the second breaks ties. *)
Definition key_leb (k1 k2 : option Z * Z) : bool :=
  match null_cmp (fst k1) (fst k2) with
  | Lt => true
  | Gt => false
  | Eq => Z.leb (snd k1) (snd k2)
  end.

Section OrderBy.
Variable q : select_query.

Fixpoint insert_sorted (m : mission) (l : list mission) : list mission :=
  match l with
  | [] => [m]
  | h :: t =>
      if key_leb (sort_key q m) (sort_key q h)
      then m :: h :: t
      else h :: insert_sorted m t
  end.

(** ORDER BY as a stable insertion sort on [sort_key]. *)
Fixpoint order_by (l : list mission) : list mission :=
  match l with
  | [] => []
  | m :: t => insert_sorted m (order_by t)
  end.
End OrderBy.

(** The rows of the table a query selects, in the order it returns them. *)
Definition matching (q : select_query) (t : table) : list mission :=
  firstn (limit q)
    (order_by q (filter (fun m => sql_in (status m) (where_status_in q)) t)).

Definition project (m : mission) : row :=
  {| row_id := id m; row_status := status m |}.

Definition run_query (q : select_query) (t : table) : list row :=
  map project (matching q t).

(** The table row behind the first result row, if any. *)
Definition first_match (q : select_query) (t : table) : option mission :=
  hd_error (matching q t).

(** [cursor.fetchone()] on the result of a query: its first row or None. *)
Definition query_one (q : select_query) (t : table) : option row :=
  hd_error (run_query q t).

(** Lines 60-64 of [main] against a table: the new-work query first, the
    active query only when the first gave no row. A result row has two
    columns, so it is never falsy. *)
Definition select_candidate (t : table) : option row :=
  match query_one new_work_query t with
  | Some r => Some r
  | None => query_one active_query t
  end.

(** The statuses of the two tiers, as the WHERE clauses list them. *)
Definition new_work_status (s : string) : Prop :=
  s = "Queued" \/ s = "Not Started".

Definition active_status (s : string) : Prop :=
  s = "In Progress" \/ s = "Current".

Definition candidate_status (s : string) : Prop :=
  new_work_status s \/ active_status s.

(* ===================================================================== *)
(** * The work summary (lines 119-137) *)
(* ===================================================================== *)

(** [str.lower()] on the bytes of the UTF-8 text: A-Z become a-z, every
    other byte is kept. Python lowers non-ASCII letters too, but the three
    needles below are plain ASCII and no non-ASCII character lowers to text
    in which they could start or continue (the only ASCII letters produced
    are k, from the Kelvin sign, and i followed by a combining dot, from
    dotted capital I), so the tests below are unaffected. *)
Definition lower_ascii (c : ascii) : ascii :=
  let n := nat_of_ascii c in
  if ((65 <=? n) && (n <=? 90))%nat then ascii_of_nat (n + 32) else c.

Fixpoint lower (s : string) : string :=
  match s with
  | EmptyString => EmptyString
  | String c s' => String (lower_ascii c) (lower s')
  end.

(** [needle in hay] on strings: [needle] occurs at some position. *)
Fixpoint contains (needle hay : string) : bool :=
  String.prefix needle hay
  || match hay with
     | EmptyString => false
     | String _ hay' => contains needle hay'
     end.

(** Lines 119-137: the lines printed for the simulated work, and
    [work_summary]. *)
Definition simulate_work (mission_id : string) : list string * string :=
  if contains "foundation" (lower mission_id) then
    (["  - Working on foundation utilities...";
      "  - Implementing core functions...";
      "  - Writing tests..."],
     "Implemented foundation utilities with 100% test coverage")
  else if contains "data-protocol" (lower mission_id) then
    (["  - Working on data protocol implementation...";
      "  - Creating protocol validators...";
      "  - Adding data transformation functions..."],
     "Completed data protocol implementation with validation")
  else if contains "test-suite" (lower mission_id) then
    (["  - Working on test suite...";
      "  - Creating comprehensive tests...";
      "  - Running coverage analysis..."],
     "Completed test suite with 100% coverage")
  else
    (["  - Executing generic mission work..."],
     "Completed mission work").

Definition work_summary (mission_id : string) : string :=
  snd (simulate_work mission_id).

(** Containment up to case, stated on the text itself: some substring of
    [hay] equals [needle] up to the case of its letters. *)
Definition contains_ignoring_case (needle hay : string) : Prop :=
  exists pre mid post,
    hay = pre ++ mid ++ post /\ lower mid = lower needle.

(* ===================================================================== *)
(** * Python control flow: completions, exceptions, the trace *)
(* ===================================================================== *)

(** The classes the [except] clauses of [main] tell apart. The two named
    ones come from [cmos/context] and are taken to derive from
    [Exception], as application errors do; [OtherException] is any other
    instance of [Exception]; [NotAnException] is a [BaseException] outside
    [Exception] (KeyboardInterrupt and the like). *)
Inductive exn_class :=
| DatabaseUnavailable
| MissionRuntimeError
| OtherException
| NotAnException.

(** A raised exception: its class and [str(e)]. *)
Record exn := mkExn {
  class_of : exn_class;
  str : string
}.

(** [except DatabaseUnavailable] *)
Definition is_DatabaseUnavailable (e : exn) : bool :=
  match class_of e with DatabaseUnavailable => true | _ => false end.

(** [except MissionRuntimeError] *)
Definition is_MissionRuntimeError (e : exn) : bool :=
  match class_of e with MissionRuntimeError => true | _ => false end.

(** [except Exception] *)
Definition is_Exception (e : exn) : bool :=
  match class_of e with NotAnException => false | _ => true end.

(** What a call into a collaborator gives back. *)
Inductive result (A : Type) :=
| Ok (a : A)
| Raise (e : exn).
Arguments Ok {A} a.
Arguments Raise {A} e.

(** [client.health_check()] *)
Record health_status := mkHealth {
  ok : bool;
  message : string
}.

(** A lifecycle event (spec section 3): mission id, kind, agent, summary,
    optional notes, timestamp. *)
Inductive event_kind := Started | Completed.

Record mission_event := mkEvent {
  ev_mission : string;
  ev_kind : event_kind;
  ev_agent : string;
  ev_summary : string;
  ev_notes : option string;
  ev_timestamp : Z
}.

(** [runtime.start_mission(..)]: [main] reads [.event]. *)
Record start_result := mkStarted {
  event : mission_event
}.

(** [runtime.complete_mission(..)]: [main] reads [.next_mission]. *)
Record completion_result := mkCompleted {
  completion_event : mission_event;
  next_mission : option string
}.

(** The calls [main] makes into [SQLiteClient] and [MissionRuntime], with
    their arguments. *)
Inductive call :=
| SQLiteClient_new (db_path : string) (create_missing : bool)
| Client_health_check
| Client_fetchone (q : select_query)
| Client_close
| MissionRuntime_new
| Runtime_ensure_database
| Runtime_start_mission (mission_id agent summary : string)
                        (append_to_file : bool)
| Runtime_fetch_next_candidate
| Runtime_complete_mission (mission_id agent summary notes : string)
                           (append_to_file : bool)
| Runtime_close.

Inductive reply :=
| Done
| Health (h : health_status)
| Fetched (r : option row)
| StartResult (r : start_result)
| CompletionResult (r : completion_result)
| Raised (e : exn).

(** What a run does that the outside can see, in order. *)
Inductive io :=
| Called (c : call) (r : reply)
| Printed (line : string).

(** How a block of statements ends. *)
Inductive completion (A : Type) :=
| Normal (a : A)
| Return (v : Z)
| Throw (e : exn).
Arguments Normal {A} a.
Arguments Return {A} v.
Arguments Throw {A} e.

(** The interface of [context.db_client.SQLiteClient] and
    [context.mission_runtime.MissionRuntime] as [main] uses it, over the
    state [W] of everything outside [main] (the database file, the open
    connections). *)
Record Collaborators (W : Type) := mkCollaborators {
  SQLiteClient_init : string -> bool -> W -> result unit * W;
  health_check : W -> result health_status * W;
  fetchone : select_query -> W -> result (option row) * W;
  client_close : W -> result unit * W;
  MissionRuntime_init : W -> result unit * W;
  ensure_database : W -> result unit * W;
  start_mission : string -> string -> string -> bool ->
                  W -> result start_result * W;
  fetch_next_candidate : W -> result (option row) * W;
  complete_mission : string -> string -> string -> string -> bool ->
                     W -> result completion_result * W;
  runtime_close : W -> result unit * W
}.
Arguments SQLiteClient_init {W}.
Arguments health_check {W}.
Arguments fetchone {W}.
Arguments client_close {W}.
Arguments MissionRuntime_init {W}.
Arguments ensure_database {W}.
Arguments start_mission {W}.
Arguments fetch_next_candidate {W}.
Arguments complete_mission {W}.
Arguments runtime_close {W}.

(** ['=' * n] *)
Fixpoint repeat_string (s : string) (n : nat) : string :=
  match n with
  | O => EmptyString
  | S n' => s ++ repeat_string s n'
  end.

(** The newline of ["\n.."] and of [{..}\n]. *)
Definition nl : string := String "010"%char EmptyString.

Section Workflow.
(** The state of the world outside [main]. *)
Variable W : Type.
Variable C : Collaborators W.
(** [str(CMOS_DIR / "db" / "cmos.sqlite")] *)
Variable db_path : string.
(** [str(result.event)] *)
Variable event_str : mission_event -> string.

(** A block of statements: from a state of the world to how the block
    ends, the new state, and what it did meanwhile. *)
Definition M (A : Type) : Type := W -> completion A * W * list io.

Definition ret {A} (a : A) : M A := fun w => (Normal a, w, []).

Definition bind {A B} (m : M A) (k : A -> M B) : M B :=
  fun w =>
    match m w with
    | (Normal a, w1, t1) =>
        match k a w1 with
        | (c, w2, t2) => (c, w2, (t1 ++ t2)%list)
        end
    | (Return v, w1, t1) => (Return v, w1, t1)
    | (Throw e, w1, t1) => (Throw e, w1, t1)
    end.

(** [return v] *)
Definition py_return {A} (v : Z) : M A := fun w => (Return v, w, []).

(** [print(line)] *)
Definition print (line : string) : M unit :=
  fun w => (Normal tt, w, [Printed line]).

(** A call into a collaborator: it returns or raises, and the trace
    records which. *)
Definition invoke {A} (c : call) (op : W -> result A * W)
    (as_reply : A -> reply) : M A :=
  fun w =>
    match op w with
    | (Ok a, w1) => (Normal a, w1, [Called c (as_reply a)])
    | (Raise e, w1) => (Throw e, w1, [Called c (Raised e)])
    end.

(** [try: body  except <catches> as e: handler e] *)
Definition try_except {A} (body : M A) (catches : exn -> bool)
    (handler : exn -> M A) : M A :=
  fun w =>
    match body w with
    | (Throw e, w1, t1) =>
        if catches e then
          match handler e w1 with
          | (c, w2, t2) => (c, w2, (t1 ++ t2)%list)
          end
        else (Throw e, w1, t1)
    | r => r
    end.

(** [try: body  finally: cleanup]: the cleanup runs however the body
    ends; the body's completion stands unless the cleanup itself returns
    or raises. *)
Definition try_finally {A} (body : M A) (cleanup : M unit) : M A :=
  fun w =>
    match body w with
    | (c, w1, t1) =>
        match cleanup w1 with
        | (Normal _, w2, t2) => (c, w2, (t1 ++ t2)%list)
        | (Return v, w2, t2) => (Return v, w2, (t1 ++ t2)%list)
        | (Throw e, w2, t2) => (Throw e, w2, (t1 ++ t2)%list)
        end
    end.
End Workflow.

Arguments ret {W A} a.
Arguments bind {W A B} m k.
Arguments py_return {W A} v.
Arguments print {W} line.
Arguments invoke {W A} c op as_reply.
Arguments try_except {W A} body catches handler.
Arguments try_finally {W A} body cleanup.

Declare Scope py_scope.
Delimit Scope py_scope with py.
Notation "x <- m ;; k" := (bind m (fun x => k))
  (at level 61, m at next level, right associativity) : py_scope.
Notation "m ;; k" := (bind m (fun _ => k))
  (at level 61, right associativity) : py_scope.

(* ===================================================================== *)
(** * [main] *)
(* ===================================================================== *)

Section Main.
Variable W : Type.
Variable C : Collaborators W.
(** [str(CMOS_DIR / "db" / "cmos.sqlite")] *)
Variable db_path : string.
(** [str(result.event)] *)
Variable event_str : mission_event -> string.

Local Open Scope py_scope.

Definition print_all (lines : list string) : M W unit :=
  fold_right (fun line rest => print line ;; rest) (ret tt) lines.

(** Step 1 (lines 18-31): connect and probe. *)
Definition connect : M W unit :=
  print ("Connecting to database at: " ++ db_path) ;;
  try_except
    (invoke (SQLiteClient_new db_path false)
            (SQLiteClient_init C db_path false) (fun _ => Done) ;;
     health_status <- invoke Client_health_check (health_check C) Health ;;
     if ok health_status then
       print "✓ Database connection successful"
     else
       print ("✗ Database health check failed: " ++ message health_status) ;;
       py_return 1)
    is_DatabaseUnavailable
    (fun e =>
       print ("✗ Database error: " ++ str e) ;;
       py_return 1).

(** Step 2 (lines 58-82): the two queries, then [client.close()] in the
    [finally]. The block yields [mission_id]. *)
Definition determine_mission : M W string :=
  try_finally
    (try_except
       (mission_row <- invoke (Client_fetchone new_work_query)
                              (fetchone C new_work_query) Fetched ;;
        mission_row <-
          match mission_row with
          | None => invoke (Client_fetchone active_query)
                           (fetchone C active_query) Fetched
          | Some r => ret (Some r)
          end ;;
        match mission_row with
        | None =>
            print "✗ No available missions found in database" ;;
            py_return 1
        | Some r =>
            let mission_id := row_id r in
            let status := row_status r in
            print ("✓ Found mission: " ++ mission_id
                   ++ " (status: " ++ status ++ ")") ;;
            (if existsb (String.eqb status) ["Queued"; "Not Started"] then
               print ("  Mission " ++ mission_id ++ " is " ++ status
                      ++ " and will be promoted to In Progress")
             else ret tt) ;;
            ret mission_id
        end)
       is_Exception
       (fun e =>
          print ("✗ Error querying missions: " ++ str e) ;;
          py_return 1))
    (invoke Client_close (client_close C) (fun _ => Done)).

(** Step 3 (lines 85-110): start the mission and look at the current
    one. There is no [finally] here. *)
Definition start (mission_id : string) : M W unit :=
  print (nl ++ "Starting mission: " ++ mission_id) ;;
  try_except
    (invoke MissionRuntime_new (MissionRuntime_init C) (fun _ => Done) ;;
     invoke Runtime_ensure_database (ensure_database C) (fun _ => Done) ;;
     result <- invoke (Runtime_start_mission mission_id "Code Agent"
                         ("Starting mission " ++ mission_id) false)
                      (start_mission C mission_id "Code Agent"
                         ("Starting mission " ++ mission_id) false)
                      StartResult ;;
     print ("✓ Mission " ++ mission_id ++ " started successfully") ;;
     print ("  Event: " ++ event_str (event result)) ;;
     print (nl ++ "Verifying current mission status:") ;;
     current_mission <- invoke Runtime_fetch_next_candidate
                               (fetch_next_candidate C) Fetched ;;
     match current_mission with
     | Some r =>
         print ("  Current mission: " ++ row_id r
                ++ " (status: " ++ row_status r ++ ")")
     | None => print "  No current mission found"
     end)
    is_MissionRuntimeError
    (fun e =>
       print ("✗ Error starting mission: " ++ str e) ;;
       py_return 1).

(** Step 4 (lines 113-140): the simulated work. The block yields
    [work_summary]. *)
Definition execute_work (mission_id : string) : M W string :=
  print (nl ++ repeat_string "=" 60) ;;
  print ("EXECUTING MISSION WORK: " ++ mission_id) ;;
  print (repeat_string "=" 60) ;;
  print "This is where the actual mission work would be executed." ;;
  print "For this demonstration, we'll simulate some work..." ;;
  print_all (fst (simulate_work mission_id)) ;;
  let work_summary := snd (simulate_work mission_id) in
  print ("  Work completed: " ++ work_summary) ;;
  print (repeat_string "=" 60 ++ nl) ;;
  ret work_summary.

(** Lines 153-154: the next mission is reported when there is one; None
    and the empty string are falsy. *)
Definition report_next (completion_result : completion_result)
  : M W unit :=
  match next_mission completion_result with
  | Some next =>
      if String.eqb next "" then ret tt
      else print ("  Next mission: " ++ next)
  | None => ret tt
  end.

(** Step 5 (lines 143-160): complete the mission, report the next one,
    then [runtime.close()] in the [finally]. *)
Definition complete (mission_id work_summary : string) : M W unit :=
  print ("Completing mission: " ++ mission_id) ;;
  try_finally
    (try_except
       (completion_result <-
          invoke (Runtime_complete_mission mission_id "Code Agent"
                    work_summary
                    ("Mission " ++ mission_id
                     ++ " completed successfully. " ++ work_summary)
                    false)
                 (complete_mission C mission_id "Code Agent"
                    work_summary
                    ("Mission " ++ mission_id
                     ++ " completed successfully. " ++ work_summary)
                    false)
                 CompletionResult ;;
        print ("✓ Mission " ++ mission_id ++ " completed successfully") ;;
        report_next completion_result)
       is_MissionRuntimeError
       (fun e =>
          print ("✗ Error completing mission: " ++ str e) ;;
          py_return 1))
    (invoke Runtime_close (runtime_close C) (fun _ => Done)).

(** [main()] (lines 16-163). *)
Definition main : M W unit :=
  connect ;;
  mission_id <- determine_mission ;;
  start mission_id ;;
  work_summary <- execute_work mission_id ;;
  complete mission_id work_summary ;;
  print (nl ++ "✓ Mission workflow completed successfully!") ;;
  py_return 0.
End Main.

Arguments main {W} C db_path event_str.
Arguments connect {W} C db_path.
Arguments determine_mission {W} C.
Arguments start {W} C event_str mission_id.
Arguments execute_work {W} mission_id.
Arguments complete {W} C mission_id work_summary.
Arguments print_all {W} lines.
Arguments report_next {W} completion_result.

(** What step 4 prints; it touches nothing outside. *)
Definition work_output (mission_id : string) : list io :=
  snd (execute_work (W := unit) mission_id tt).

(** What lines 153-154 print. *)
Definition next_report (r : completion_result) : list io :=
  snd (report_next (W := unit) r tt).

(** The calls of a trace with what they gave back, in order. *)
Fixpoint interactions (t : list io) : list (call * reply) :=
  match t with
  | [] => []
  | Called c r :: rest => (c, r) :: interactions rest
  | Printed _ :: rest => interactions rest
  end.

(** The calls of a trace, in order. *)
Definition calls (t : list io) : list call := map fst (interactions t).

Definition is_release (c : call) : bool :=
  match c with
  | Client_close | Runtime_close => true
  | _ => false
  end.

(** After a call that raised, nothing is called but the two releases. *)
Fixpoint nothing_retried (t : list (call * reply)) : Prop :=
  match t with
  | [] => True
  | (_, Raised _) :: rest =>
      Forall (fun cr => is_release (fst cr) = true) rest
      /\ nothing_retried rest
  | _ :: rest => nothing_retried rest
  end.

(** The errors [main] has an [except] clause for, by the call that raised:
    [DatabaseUnavailable] while connecting and probing, any [Exception]
    while selecting, [MissionRuntimeError] in the lifecycle calls. *)
Definition handled (c : call) (e : exn) : bool :=
  match c with
  | SQLiteClient_new _ _ | Client_health_check => is_DatabaseUnavailable e
  | Client_fetchone _ => is_Exception e
  | MissionRuntime_new | Runtime_ensure_database
  | Runtime_start_mission _ _ _ _ | Runtime_fetch_next_candidate
  | Runtime_complete_mission _ _ _ _ _ => is_MissionRuntimeError e
  | Client_close | Runtime_close => false
  end.

(** The place of a call in the order of [main]; of the two queries, the one
    that matches Queued comes first. *)
Definition phase (c : call) : nat :=
  match c with
  | SQLiteClient_new _ _ => 0
  | Client_health_check => 1
  | Client_fetchone q => if sql_in "Queued" (where_status_in q) then 2 else 3
  | Client_close => 4
  | MissionRuntime_new => 5
  | Runtime_ensure_database => 6
  | Runtime_start_mission _ _ _ _ => 7
  | Runtime_fetch_next_candidate => 8
  | Runtime_complete_mission _ _ _ _ _ => 9
  | Runtime_close => 10
  end.

Fixpoint increasing (l : list nat) : Prop :=
  match l with
  | [] => True
  | a :: rest =>
      match rest with
      | [] => True
      | b :: _ => (a < b)%nat
      end /\ increasing rest
  end.

(** [m] is a row of [t] in status [st], and no row of [t] in that status
    has a smaller rowid. *)
Definition earliest_in_status (st : string) (t : table) (m : mission)
  : Prop :=
  In m t /\ status m = st /\
  forall m', In m' t -> status m' = st -> rowid m <= rowid m'.

Definition is_start (c : call) : bool :=
  match c with Runtime_start_mission _ _ _ _ => true | _ => false end.

Definition is_complete (c : call) : bool :=
  match c with Runtime_complete_mission _ _ _ _ _ => true | _ => false end.

Definition is_fetchone (c : call) : bool :=
  match c with Client_fetchone _ => true | _ => false end.

(** The mission a lifecycle call names. *)
Definition mission_of (c : call) : option string :=
  match c with
  | Runtime_start_mission m _ _ _ => Some m
  | Runtime_complete_mission m _ _ _ _ => Some m
  | _ => None
  end.

(** The missions the lifecycle calls of a run name, in order. *)
Fixpoint named_missions (l : list call) : list string :=
  match l with
  | [] => []
  | c :: rest =>
      match mission_of c with
      | Some m => m :: named_missions rest
      | None => named_missions rest
      end
  end.

(** The status vocabulary as the spec enumerates it. *)
Definition enumerated_names : list string :=
  ["NotStarted"; "Queued"; "InProgress"; "Current"; "Completed"].

(** The strings the two WHERE clauses match against. *)
Definition filter_statuses : list string :=
  (where_status_in new_work_query ++ where_status_in active_query)%list.

(* ===================================================================== *)
(** * The lifecycle engine and a reference world *)
(* ===================================================================== *)

Module Lifecycle.

(** Modelled from the spec: the store behind the Lifecycle Engine of
    section 4.3 ([context.mission_runtime] is not among the sources):
    the missions, the persisted events, and the clock that stamps
    them. *)
Record store := mkStore {
  missions : table;
  events : list mission_event;
  now : Z
}.

(** Modelled from the spec: the error taxonomy of section 7 for
    lifecycle calls. *)
Inductive lifecycle_error :=
| NotFound (mission_id : string)
| InvalidTransition (mission_id attempted actual : string).

Definition findById (mission_id : string) (t : table) : option mission :=
  find (fun m => String.eqb (id m) mission_id) t.

(** The status write of a transition: every row of that id. *)
Definition set_status (mission_id new_status : string) (t : table)
  : table :=
  map (fun m =>
         if String.eqb (id m) mission_id
         then {| rowid := rowid m; id := id m; status := new_status |}
         else m) t.

(** Modelled from the spec: [nextCandidate()] of section 4.2, the
    two-tier search; it is the search lines 58-64 of [main] run. *)
Definition nextCandidate (s : store) : option row :=
  select_candidate (missions s).

Definition startable (st : string) : bool :=
  sql_in st (where_status_in new_work_query)
  || sql_in st (where_status_in active_query).

Definition completable (st : string) : bool :=
  sql_in st (where_status_in active_query).

(** Modelled from the spec: [start(missionId, agent, summary)] of
    section 4.3. The mission must exist in a new or active status; the
    status becomes In Progress and a Started event is persisted. *)
Definition start (mission_id agent summary : string) (s : store)
  : (lifecycle_error + mission_event) * store :=
  match findById mission_id (missions s) with
  | None => (inl (NotFound mission_id), s)
  | Some m =>
      if startable (status m) then
        let ev := {| ev_mission := mission_id; ev_kind := Started;
                     ev_agent := agent; ev_summary := summary;
                     ev_notes := None; ev_timestamp := now s |} in
        (inr ev,
         {| missions := set_status mission_id "In Progress" (missions s);
            events := (events s ++ [ev])%list;
            now := now s |})
      else
        (inl (InvalidTransition mission_id "In Progress" (status m)), s)
  end.

(** Modelled from the spec: [complete(missionId, agent, summary,
    notes)] of section 4.3. The mission must exist in an active status;
    the status becomes Completed, a Completed event is persisted, and
    then [nextCandidate()] runs on the store as just written. *)
Definition complete (mission_id agent summary notes : string)
    (s : store) : (lifecycle_error + completion_result) * store :=
  match findById mission_id (missions s) with
  | None => (inl (NotFound mission_id), s)
  | Some m =>
      if completable (status m) then
        let ev := {| ev_mission := mission_id; ev_kind := Completed;
                     ev_agent := agent; ev_summary := summary;
                     ev_notes := Some notes; ev_timestamp := now s |} in
        let s' :=
          {| missions := set_status mission_id "Completed" (missions s);
             events := (events s ++ [ev])%list;
             now := now s |} in
        (inr {| completion_event := ev;
                next_mission := option_map row_id (nextCandidate s') |},
         s')
      else
        (inl (InvalidTransition mission_id "Completed" (status m)), s)
  end.

End Lifecycle.

(** Modelled from the spec: a world for [main] to run in, with the
    Storage Gateway of section 4.1 and the Lifecycle Engine of section 4.3
    over one store. [faults] says which calls find the store unreachable
    or otherwise fail, and how. *)
Record world := mkWorld {
  db : Lifecycle.store;
  probe : health_status;
  faults : call -> option exn
}.

Definition with_db (w : world) (s : Lifecycle.store) : world :=
  {| db := s; probe := probe w; faults := faults w |}.

Definition guarded {A} (c : call) (op : world -> result A * world)
  : world -> result A * world :=
  fun w =>
    match faults w c with
    | Some e => (Raise e, w)
    | None => op w
    end.

(** A lifecycle error as the [MissionRuntimeError] the runtime raises. *)
Definition describe (err : Lifecycle.lifecycle_error) : exn :=
  match err with
  | Lifecycle.NotFound m =>
      {| class_of := MissionRuntimeError;
         str := "Mission not found: " ++ m |}
  | Lifecycle.InvalidTransition m attempted actual =>
      {| class_of := MissionRuntimeError;
         str := "Invalid transition for " ++ m ++ ": " ++ actual
                ++ " -> " ++ attempted |}
  end.

(** Modelled from the spec: the collaborators over [world]. Every call
    first consults [faults]; the client answers queries from the missions
    of the store, the runtime runs the lifecycle engine on it. *)
Definition reference : Collaborators world :=
  {| SQLiteClient_init := fun path create_missing =>
       guarded (SQLiteClient_new path create_missing)
               (fun w => (Ok tt, w));
     health_check :=
       guarded Client_health_check (fun w => (Ok (probe w), w));
     fetchone := fun q =>
       guarded (Client_fetchone q)
               (fun w => (Ok (query_one q (Lifecycle.missions (db w))), w));
     client_close := guarded Client_close (fun w => (Ok tt, w));
     MissionRuntime_init := guarded MissionRuntime_new (fun w => (Ok tt, w));
     ensure_database :=
       guarded Runtime_ensure_database (fun w => (Ok tt, w));
     start_mission := fun mission_id agent summary append_to_file =>
       guarded (Runtime_start_mission mission_id agent summary
                                      append_to_file)
               (fun w =>
                  match Lifecycle.start mission_id agent summary (db w) with
                  | (inr ev, s) => (Ok {| event := ev |}, with_db w s)
                  | (inl err, s) => (Raise (describe err), with_db w s)
                  end);
     fetch_next_candidate :=
       guarded Runtime_fetch_next_candidate
               (fun w => (Ok (Lifecycle.nextCandidate (db w)), w));
     complete_mission := fun mission_id agent summary notes append_to_file =>
       guarded (Runtime_complete_mission mission_id agent summary notes
                                         append_to_file)
               (fun w =>
                  match Lifecycle.complete mission_id agent summary notes
                                           (db w) with
                  | (inr r, s) => (Ok r, with_db w s)
                  | (inl err, s) => (Raise (describe err), with_db w s)
                  end);
     runtime_close := guarded Runtime_close (fun w => (Ok tt, w)) |}.

Definition no_faults : call -> option exn := fun _ => None.

Definition healthy : health_status := {| ok := true; message := "ok" |}.

Definition show_event (ev : mission_event) : string :=
  match ev_kind ev with
  | Started => "Started " ++ ev_mission ev
  | Completed => "Completed " ++ ev_mission ev
  end.

(** The example of the spec's section 8: A Queued, B Not Started,
    C In Progress, inserted in that order. *)
Definition abc : table :=
  [ {| rowid := 1; id := "A"; status := "Queued" |};
    {| rowid := 2; id := "B"; status := "Not Started" |};
    {| rowid := 3; id := "C"; status := "In Progress" |} ].

Definition world_of (t : table) (f : call -> option exn) : world :=
  {| db := {| Lifecycle.missions := t; Lifecycle.events := [];
              Lifecycle.now := 0 |};
     probe := healthy;
     faults := f |}.

(** A run of [main] in the reference world. *)
Definition run (w : world) : completion unit * world * list io :=
  main reference "cmos/db/cmos.sqlite" show_event w.

(** Worlds and tables to run the workflow on. *)
Definition lifecycle_fault : exn :=
  {| class_of := MissionRuntimeError; str := "mission is locked" |}.

Definition query_fault : exn :=
  {| class_of := OtherException; str := "no such table: missions" |}.

Definition start_fails : call -> option exn :=
  fun c => if is_start c then Some lifecycle_fault else None.

Definition fetch_fails : call -> option exn :=
  fun c => if is_fetchone c then Some query_fault else None.

Definition unhealthy_world : world :=
  {| db := {| Lifecycle.missions := abc; Lifecycle.events := [];
              Lifecycle.now := 0 |};
     probe := {| ok := false; message := "database is locked" |};
     faults := no_faults |}.

(** A store whose missions are all outside the four candidate statuses. *)
Definition all_done : table :=
  [ {| rowid := 1; id := "A"; status := "Completed" |};
    {| rowid := 2; id := "B"; status := "Blocked" |} ].

(** A mission stored under the spec's spelling of Not Started. *)
Definition spaceless : table :=
  [ {| rowid := 1; id := "M1"; status := "NotStarted" |} ].

(** The store of [abc] once A has been started. *)
Definition abc_started : Lifecycle.store :=
  snd (Lifecycle.start "A" "Code Agent" "Starting mission A"
         {| Lifecycle.missions := abc; Lifecycle.events := [];
            Lifecycle.now := 0 |}).

(** The parts of a run. *)
Definition outcome_of {W} (r : completion unit * W * list io)
  : completion unit := fst (fst r).

Definition trace_of {W} (r : completion unit * W * list io) : list io :=
  snd r.

Definition world_after {W} (r : completion unit * W * list io) : W :=
  snd (fst r).

(** Modelled from the spec: a world whose client answers every query from
    the one table [t] (section 4.1: the gateway does not mutate mission
    data); the rest is [reference]. *)
Definition frozen (t : table) : Collaborators world :=
  {| SQLiteClient_init := SQLiteClient_init reference;
     health_check := health_check reference;
     fetchone := fun q w => (Ok (query_one q t), w);
     client_close := client_close reference;
     MissionRuntime_init := MissionRuntime_init reference;
     ensure_database := ensure_database reference;
     start_mission := start_mission reference;
     fetch_next_candidate := fetch_next_candidate reference;
     complete_mission := complete_mission reference;
     runtime_close := runtime_close reference |}.

Definition run_frozen (t : table) : completion unit * world * list io :=
  main (frozen t) "cmos/db/cmos.sqlite" show_event (world_of t no_faults).


(** A table with one row per tier status and a finished one, stored out of
    rowid order. *)
Definition shuffled : table :=
  [ {| rowid := 4; id := "D"; status := "Current" |};
    {| rowid := 3; id := "C"; status := "In Progress" |};
    {| rowid := 5; id := "E"; status := "Completed" |};
    {| rowid := 2; id := "B"; status := "In Progress" |} ].


(** The lines a run printed, in order. *)
Fixpoint printed (t : list io) : list string :=
  match t with
  | [] => []
  | Printed line :: rest => line :: printed rest
  | Called _ _ :: rest => printed rest
  end.

(** A fault that closing the runtime raises. *)
Definition close_fault : exn :=
  {| class_of := OtherException; str := "database is closed" |}.

Definition runtime_close_fails : call -> option exn :=
  fun c => match c with Runtime_close => Some close_fault | _ => None end.


Definition complete_fails : call -> option exn :=
  fun c => if is_complete c then Some lifecycle_fault else None.

(* ===================================================================== *)
(** * ORDER BY puts a least row first *)
(* ===================================================================== *)

Lemma null_cmp_refl a : null_cmp a a = Eq.
Proof. destruct a; simpl; auto using Z.compare_refl. Qed.

Lemma null_cmp_antisym a b : null_cmp b a = CompOpp (null_cmp a b).
Proof. destruct a, b; simpl; auto using Z.compare_antisym. Qed.

Lemma null_cmp_eq a b : null_cmp a b = Eq -> a = b.
Proof.
  destruct a, b; simpl; try discriminate; auto.
  intros H. apply Z.compare_eq in H. congruence.
Qed.

Lemma null_cmp_lt_trans a b c :
  null_cmp a b = Lt -> null_cmp b c = Lt -> null_cmp a c = Lt.
Proof.
  destruct a, b, c; simpl; try discriminate; auto.
  rewrite !Z.compare_lt_iff. lia.
Qed.

Lemma key_leb_total k1 k2 : key_leb k1 k2 = false -> key_leb k2 k1 = true.
Proof.
  unfold key_leb. rewrite (null_cmp_antisym (fst k1) (fst k2)).
  destruct (null_cmp (fst k1) (fst k2)); simpl; try discriminate; auto.
  rewrite Z.leb_gt, Z.leb_le. lia.
Qed.

Lemma key_leb_trans k1 k2 k3 :
  key_leb k1 k2 = true -> key_leb k2 k3 = true -> key_leb k1 k3 = true.
Proof.
  unfold key_leb.
  destruct (null_cmp (fst k1) (fst k2)) eqn:E12; try discriminate;
    destruct (null_cmp (fst k2) (fst k3)) eqn:E23; try discriminate.
  - apply null_cmp_eq in E12. rewrite E12, E23.
    rewrite !Z.leb_le. lia.
  - apply null_cmp_eq in E12. rewrite E12, E23. auto.
  - apply null_cmp_eq in E23. rewrite <- E23, E12. auto.
  - rewrite (null_cmp_lt_trans _ _ _ E12 E23). auto.
Qed.

Section OrderByFacts.
Variable q : select_query.

Lemma In_insert_sorted x m l :
  In x (insert_sorted q m l) <-> x = m \/ In x l.
Proof.
  induction l as [|h t IH]; simpl.
  - intuition.
  - destruct (key_leb (sort_key q m) (sort_key q h)); simpl.
    + intuition.
    + rewrite IH. intuition.
Qed.

Lemma In_order_by x l : In x (order_by q l) <-> In x l.
Proof.
  induction l as [|m t IH]; simpl.
  - tauto.
  - rewrite In_insert_sorted, IH. intuition.
Qed.

Lemma order_by_nil l : order_by q l = [] -> l = [].
Proof.
  destruct l as [|m t]; auto. intros H.
  assert (Hin : In m (order_by q (m :: t))) by (apply In_order_by; simpl; auto).
  rewrite H in Hin. destruct Hin.
Qed.

(** The row ORDER BY puts first is a row of the input, and its key is at
    most the key of every row of the input. *)
Lemma order_by_head_least l m :
  hd_error (order_by q l) = Some m ->
  In m l /\
  forall m', In m' l -> key_leb (sort_key q m) (sort_key q m') = true.
Proof.
  revert m. induction l as [|a t IH]; simpl; intros m Hhd.
  - discriminate.
  - destruct (order_by q t) as [|h rest] eqn:Et.
    + apply order_by_nil in Et. subst t. simpl in Hhd.
      injection Hhd as <-. split; auto.
      intros m' [<-|[]]. unfold key_leb. rewrite null_cmp_refl.
      apply Z.leb_refl.
    + destruct (IH h eq_refl) as [Hin Hleast].
      simpl in Hhd.
      destruct (key_leb (sort_key q a) (sort_key q h)) eqn:Eah;
        simpl in Hhd; injection Hhd as <-.
      * split; auto. intros m' [<-|Hm'].
        -- unfold key_leb. rewrite null_cmp_refl. apply Z.leb_refl.
        -- eapply key_leb_trans; eauto.
      * split; auto. intros m' [<-|Hm']; auto using key_leb_total.
Qed.
End OrderByFacts.

Lemma hd_error_firstn_1 {A} (l : list A) : hd_error (firstn 1 l) = hd_error l.
Proof. destruct l; reflexivity. Qed.

Section QueryFacts.
Variable q : select_query.
Hypothesis limit_one : limit q = 1%nat.

(** What the query returns first is a row of the table that passes the
    WHERE clause and sorts before every other row that passes it. *)
Lemma first_match_least t m :
  first_match q t = Some m ->
  In m t /\ sql_in (status m) (where_status_in q) = true /\
  forall m', In m' t -> sql_in (status m') (where_status_in q) = true ->
             key_leb (sort_key q m) (sort_key q m') = true.
Proof.
  unfold first_match, matching. rewrite limit_one, hd_error_firstn_1.
  intros H. apply order_by_head_least in H. destruct H as [Hin Hleast].
  apply filter_In in Hin. destruct Hin as [Hin Hw].
  repeat split; auto.
  intros m' Hm' Hw'. apply Hleast. apply filter_In. auto.
Qed.

(** A row passing the WHERE clause makes the query return one. *)
Lemma first_match_some t m' :
  In m' t -> sql_in (status m') (where_status_in q) = true ->
  exists m, first_match q t = Some m.
Proof.
  intros Hin Hw. unfold first_match, matching.
  rewrite limit_one, hd_error_firstn_1.
  destruct (order_by q (filter _ t)) as [|h rest] eqn:E.
  - apply order_by_nil in E.
    assert (Hf : In m' (filter (fun m => sql_in (status m) (where_status_in q)) t))
      by (apply filter_In; auto).
    rewrite E in Hf. destruct Hf.
  - exists h. reflexivity.
Qed.

(** No row passing the WHERE clause: the query returns nothing. *)
Lemma first_match_none t :
  (forall m, In m t -> sql_in (status m) (where_status_in q) = false) ->
  first_match q t = None.
Proof.
  intros Hnone. destruct (first_match q t) as [m|] eqn:E; auto.
  apply first_match_least in E. destruct E as (Hin & Hw & _).
  rewrite (Hnone m Hin) in Hw. discriminate.
Qed.
End QueryFacts.

Lemma query_one_first_match q t :
  query_one q t = option_map project (first_match q t).
Proof.
  unfold query_one, run_query, first_match.
  destruct (matching q t); reflexivity.
Qed.

Lemma sql_in_new_work s :
  sql_in s (where_status_in new_work_query) = true <-> new_work_status s.
Proof.
  unfold sql_in, new_work_status. simpl.
  rewrite !orb_true_iff, !String.eqb_eq. intuition discriminate.
Qed.

Lemma sql_in_active s :
  sql_in s (where_status_in active_query) = true <-> active_status s.
Proof.
  unfold sql_in, active_status. simpl.
  rewrite !orb_true_iff, !String.eqb_eq. intuition discriminate.
Qed.

Lemma tiers_disjoint s : new_work_status s -> active_status s -> False.
Proof. intros [-> | ->] [H | H]; discriminate H. Qed.


(* ===================================================================== *)
(** * The order inside a tier *)
(* ===================================================================== *)

Section TierOrder.
(** A query over two statuses, the first ranked 0 and the second 1. *)
Variable q : select_query.
Variables first second : string.
Hypothesis where_clause : where_status_in q = [first; second].
Hypothesis case_clause : order_by_case q = [(first, 0); (second, 1)].
Hypothesis limit_one : limit q = 1%nat.
Hypothesis distinct : first <> second.

Lemma tier_sql_in s :
  sql_in s (where_status_in q) = true <-> s = first \/ s = second.
Proof.
  rewrite where_clause. unfold sql_in. simpl.
  rewrite !orb_true_iff, !String.eqb_eq. intuition discriminate.
Qed.

Lemma tier_key_first m :
  status m = first -> sort_key q m = (Some 0, rowid m).
Proof.
  intros H. unfold sort_key. rewrite case_clause, H. simpl.
  rewrite String.eqb_refl. reflexivity.
Qed.

Lemma tier_key_second m :
  status m = second -> sort_key q m = (Some 1, rowid m).
Proof.
  intros H. unfold sort_key. rewrite case_clause, H. simpl.
  destruct (String.eqb_spec second first) as [E|_].
  - symmetry in E. contradiction.
  - rewrite String.eqb_refl. reflexivity.
Qed.

(** With a row of the first status in the table, the query returns the
    earliest such row. *)
Lemma tier_first_status t m' :
  In m' t -> status m' = first ->
  exists m, first_match q t = Some m /\ earliest_in_status first t m.
Proof.
  intros Hin' Hst'.
  assert (Hw' : sql_in (status m') (where_status_in q) = true)
    by (apply tier_sql_in; auto).
  destruct (first_match_some q limit_one t m' Hin' Hw') as [m Hm].
  exists m. split; auto.
  destruct (first_match_least q limit_one t m Hm) as (Hin & Hw & Hleast).
  assert (Hst : status m = first).
  { apply tier_sql_in in Hw. destruct Hw as [?|Hsec]; auto.
    specialize (Hleast m' Hin' Hw').
    rewrite (tier_key_second m Hsec), (tier_key_first m' Hst') in Hleast.
    discriminate Hleast. }
  repeat split; auto.
  intros m2 Hin2 Hst2.
  assert (Hw2 : sql_in (status m2) (where_status_in q) = true)
    by (apply tier_sql_in; auto).
  specialize (Hleast m2 Hin2 Hw2).
  rewrite (tier_key_first m Hst), (tier_key_first m2 Hst2) in Hleast.
  unfold key_leb in Hleast. simpl in Hleast. apply Z.leb_le. exact Hleast.
Qed.

(** With no row of the first status but one of the second, the query
    returns the earliest row of the second status. *)
Lemma tier_second_status t m' :
  (forall m, In m t -> status m <> first) ->
  In m' t -> status m' = second ->
  exists m, first_match q t = Some m /\ earliest_in_status second t m.
Proof.
  intros Hnone Hin' Hst'.
  assert (Hw' : sql_in (status m') (where_status_in q) = true)
    by (apply tier_sql_in; auto).
  destruct (first_match_some q limit_one t m' Hin' Hw') as [m Hm].
  exists m. split; auto.
  destruct (first_match_least q limit_one t m Hm) as (Hin & Hw & Hleast).
  assert (Hst : status m = second).
  { apply tier_sql_in in Hw. destruct Hw as [Hfst|?]; auto.
    destruct (Hnone m Hin Hfst). }
  repeat split; auto.
  intros m2 Hin2 Hst2.
  assert (Hw2 : sql_in (status m2) (where_status_in q) = true)
    by (apply tier_sql_in; auto).
  specialize (Hleast m2 Hin2 Hw2).
  rewrite (tier_key_second m Hst), (tier_key_second m2 Hst2) in Hleast.
  unfold key_leb in Hleast. simpl in Hleast. apply Z.leb_le. exact Hleast.
Qed.
End TierOrder.

Lemma query_one_of_first_match q t m :
  first_match q t = Some m -> query_one q t = Some (project m).
Proof. intros H. rewrite query_one_first_match, H. reflexivity. Qed.

Lemma queued_is_not_not_started : "Queued" <> "Not Started".
Proof. discriminate. Qed.

Lemma in_progress_is_not_current : "In Progress" <> "Current".
Proof. discriminate. Qed.

(** C2. Inside the new-work tier a Queued mission goes before every Not
    Started one, inside the active tier an In Progress mission goes before
    every Current one, and among missions of the chosen status the one with
    the smallest rowid is returned. *)
Theorem selection_order_within_tier :
  forall (t : table) (m' : mission),
    In m' t ->
    (status m' = "Queued" ->
     exists m, query_one new_work_query t = Some (project m)
               /\ first_match new_work_query t = Some m
               /\ earliest_in_status "Queued" t m)
    /\ (status m' = "Not Started" ->
        (forall m0, In m0 t -> status m0 <> "Queued") ->
        exists m, query_one new_work_query t = Some (project m)
                  /\ first_match new_work_query t = Some m
                  /\ earliest_in_status "Not Started" t m)
    /\ (status m' = "In Progress" ->
        exists m, query_one active_query t = Some (project m)
                  /\ first_match active_query t = Some m
                  /\ earliest_in_status "In Progress" t m)
    /\ (status m' = "Current" ->
        (forall m0, In m0 t -> status m0 <> "In Progress") ->
        exists m, query_one active_query t = Some (project m)
                  /\ first_match active_query t = Some m
                  /\ earliest_in_status "Current" t m).
Proof.
  intros t m' Hin. repeat split.
  - intros Hst.
    destruct (tier_first_status new_work_query "Queued" "Not Started"
                eq_refl eq_refl eq_refl queued_is_not_not_started
                t m' Hin Hst) as (m & Hm & He).
    exists m. auto using query_one_of_first_match.
  - intros Hst Hnone.
    destruct (tier_second_status new_work_query "Queued" "Not Started"
                eq_refl eq_refl eq_refl queued_is_not_not_started
                t m' Hnone Hin Hst) as (m & Hm & He).
    exists m. auto using query_one_of_first_match.
  - intros Hst.
    destruct (tier_first_status active_query "In Progress" "Current"
                eq_refl eq_refl eq_refl in_progress_is_not_current
                t m' Hin Hst) as (m & Hm & He).
    exists m. auto using query_one_of_first_match.
  - intros Hst Hnone.
    destruct (tier_second_status active_query "In Progress" "Current"
                eq_refl eq_refl eq_refl in_progress_is_not_current
                t m' Hnone Hin Hst) as (m & Hm & He).
    exists m. auto using query_one_of_first_match.
Qed.

(** What each query can return, and when it returns nothing. *)
Lemma query_one_new_work t r :
  query_one new_work_query t = Some r ->
  exists m, In m t /\ project m = r /\ new_work_status (status m).
Proof.
  rewrite query_one_first_match.
  destruct (first_match new_work_query t) as [m|] eqn:E; try discriminate.
  simpl. intros [= <-].
  destruct (first_match_least new_work_query eq_refl t m E) as (Hin & Hw & _).
  exists m. rewrite <- sql_in_new_work. auto.
Qed.

Lemma query_one_active t r :
  query_one active_query t = Some r ->
  exists m, In m t /\ project m = r /\ active_status (status m).
Proof.
  rewrite query_one_first_match.
  destruct (first_match active_query t) as [m|] eqn:E; try discriminate.
  simpl. intros [= <-].
  destruct (first_match_least active_query eq_refl t m E) as (Hin & Hw & _).
  exists m. rewrite <- sql_in_active. auto.
Qed.

Lemma query_one_new_work_none t :
  (forall m, In m t -> ~ new_work_status (status m)) ->
  query_one new_work_query t = None.
Proof.
  intros H. rewrite query_one_first_match.
  rewrite (first_match_none new_work_query eq_refl); auto.
  intros m Hin.
  destruct (sql_in (status m) (where_status_in new_work_query)) eqn:E; auto.
  apply sql_in_new_work in E. destruct (H m Hin E).
Qed.

Lemma query_one_active_none t :
  (forall m, In m t -> ~ active_status (status m)) ->
  query_one active_query t = None.
Proof.
  intros H. rewrite query_one_first_match.
  rewrite (first_match_none active_query eq_refl); auto.
  intros m Hin.
  destruct (sql_in (status m) (where_status_in active_query)) eqn:E; auto.
  apply sql_in_active in E. destruct (H m Hin E).
Qed.

Lemma query_one_new_work_some t m' :
  In m' t -> new_work_status (status m') ->
  exists r, query_one new_work_query t = Some r.
Proof.
  intros Hin Hst. apply sql_in_new_work in Hst.
  destruct (first_match_some new_work_query eq_refl t m' Hin Hst) as [m Hm].
  exists (project m). auto using query_one_of_first_match.
Qed.

(** C9. A mission that selection returns has one of the four statuses the
    two WHERE clauses list; one in status Completed, or in any other
    status, is returned by neither query. *)
Theorem selected_status_is_candidate :
  forall (t : table) (r : row),
    (query_one new_work_query t = Some r -> new_work_status (row_status r))
    /\ (query_one active_query t = Some r -> active_status (row_status r))
    /\ (select_candidate t = Some r ->
        In (row_status r) ["Queued"; "Not Started"; "In Progress"; "Current"]
        /\ row_status r <> "Completed"
        /\ exists m, In m t /\ id m = row_id r /\ status m = row_status r).
Proof.
  intros t r.
  assert (Hnew : query_one new_work_query t = Some r ->
                 exists m, In m t /\ id m = row_id r
                           /\ status m = row_status r
                           /\ new_work_status (row_status r)).
  { intros H. apply query_one_new_work in H.
    destruct H as (m & Hin & <- & Hst). exists m. simpl. auto. }
  assert (Hact : query_one active_query t = Some r ->
                 exists m, In m t /\ id m = row_id r
                           /\ status m = row_status r
                           /\ active_status (row_status r)).
  { intros H. apply query_one_active in H.
    destruct H as (m & Hin & <- & Hst). exists m. simpl. auto. }
  split; [|split].
  - intros H. destruct (Hnew H) as (m & _ & _ & _ & Hst). exact Hst.
  - intros H. destruct (Hact H) as (m & _ & _ & _ & Hst). exact Hst.
  - unfold select_candidate.
    destruct (query_one new_work_query t) as [r0|] eqn:E.
    + intros [= ->]. destruct (Hnew eq_refl) as (m & Hin & Hid & Hst & Hs).
      split; [|split].
      * destruct Hs as [-> | ->]; simpl; auto.
      * destruct Hs as [-> | ->]; discriminate.
      * exists m. auto.
    + intros H. destruct (Hact H) as (m & Hin & Hid & Hst & Hs).
      split; [|split].
      * destruct Hs as [-> | ->]; simpl; auto.
      * destruct Hs as [-> | ->]; discriminate.
      * exists m. auto.
Qed.


(* ===================================================================== *)
(** * Runs of [main] *)
(* ===================================================================== *)

Lemma print_all_run {W} (lines : list string) (w : W) :
  print_all lines w = (Normal tt, w, map Printed lines).
Proof.
  unfold print_all. induction lines as [|l ls IH]; simpl; auto.
  unfold bind at 1. unfold print at 1. rewrite IH. reflexivity.
Qed.

(** Step 4 never fails, leaves the world alone and yields the summary. *)
Lemma execute_work_run {W} (mission_id : string) (w : W) :
  execute_work mission_id w
  = (Normal (work_summary mission_id), w, work_output mission_id).
Proof.
  unfold work_output, execute_work, bind, print, ret.
  rewrite !print_all_run. reflexivity.
Qed.

Lemma report_next_run {W} (r : completion_result) (w : W) :
  report_next r w = (Normal tt, w, next_report r).
Proof.
  unfold next_report, report_next.
  destruct (next_mission r) as [next|]; auto.
  destruct (String.eqb next ""); reflexivity.
Qed.

Lemma interactions_app t1 t2 :
  interactions (t1 ++ t2) = (interactions t1 ++ interactions t2)%list.
Proof.
  induction t1 as [|[c r|line] t1 IH]; simpl; auto. rewrite IH. reflexivity.
Qed.

Lemma interactions_prints lines : interactions (map Printed lines) = [].
Proof. induction lines; simpl; auto. Qed.

Lemma interactions_work_output mission_id :
  interactions (work_output mission_id) = [].
Proof.
  unfold work_output. rewrite execute_work_run. simpl.
  unfold work_output, execute_work, bind, print, ret.
  rewrite print_all_run. simpl.
  rewrite interactions_app, interactions_prints. reflexivity.
Qed.

Lemma interactions_next_report r : interactions (next_report r) = [].
Proof.
  unfold next_report, report_next.
  destruct (next_mission r) as [next|]; auto.
  destruct (String.eqb next ""); reflexivity.
Qed.

Lemma queries_differ : new_work_query <> active_query.
Proof. discriminate. Qed.

(** One step of a run: a call returns or raises, a test goes one way or
    the other; step 4 and the report are taken whole. *)
Ltac run_step :=
  match goal with
  | |- context [execute_work ?m ?w] => rewrite (execute_work_run m w)
  | |- context [report_next ?r ?w] => rewrite (report_next_run r w)
  | |- context [match ?x with pair _ _ => _ end] =>
      lazymatch type of x with
      | (result _ * _)%type =>
          let r := fresh "r" in
          let w := fresh "w" in
          let E := fresh "E" in
          destruct x as [r w] eqn:E; destruct r
      end
  | |- context [if ?b then _ else _] =>
      let E := fresh "E" in destruct b eqn:E
  | |- context [match ?x with Some _ => _ | None => _ end] =>
      let E := fresh "E" in destruct x eqn:E
  end;
  cbn [app].

(** The trace of a run, reduced to its calls and their replies. *)
Ltac trace_simpl :=
  unfold calls;
  cbn [interactions app map fst];
  repeat match goal with
    | |- context [interactions (_ ++ _)] =>
        rewrite ?interactions_app, ?interactions_work_output,
          ?interactions_next_report;
        cbn [interactions app map fst]
    end.

(** All the runs of [main], one goal for each, the run's completion and
    trace put in place of the variables that stand for them. *)
Ltac run_main :=
  unfold main, connect, determine_mission, start, complete;
  unfold bind, try_except, try_finally, invoke, print, py_return, ret;
  cbn [app];
  repeat run_step;
  intros [= <- <- <-];
  trace_simpl.

Ltac split_in :=
  repeat match goal with
    | H : False |- _ => destruct H
    | H : _ \/ _ |- _ => destruct H
    | H : @eq (call * reply) _ _ |- _ => inversion H; clear H; subst
    | H : @eq call _ _ |- _ => inversion H; clear H; subst
    | H : In _ [] |- _ => destruct H
    | H : In _ (_ :: _) |- _ => cbn [In] in H
    end.

(** Find in a list the first element that fits. *)
Ltac pick_in :=
  cbn [In]; repeat first [left; reflexivity | right].


Section Runs.
Variable W : Type.
Variable C : Collaborators W.
Variable db_path : string.
Variable event_str : mission_event -> string.

(** A row the trace shows as fetched was given by the client. *)
Lemma fetched_by_client w c w' tr q r :
  main C db_path event_str w = (c, w', tr) ->
  In (Client_fetchone q, Fetched r) (interactions tr) ->
  exists w0 w1, fetchone C q w0 = (Ok r, w1).
Proof.
  run_main; intros Hin; split_in; eauto.
Qed.

(** The active query is run only after the new-work query gave no
    row. *)
Lemma active_query_after_empty_new_work w c w' tr r :
  main C db_path event_str w = (c, w', tr) ->
  In (Client_fetchone active_query, r) (interactions tr) ->
  In (Client_fetchone new_work_query, Fetched None) (interactions tr).
Proof.
  run_main; intros Hin; split_in; pick_in.
Qed.

(** A lifecycle call names the mission of a row one of the two queries
    fetched. *)
Lemma lifecycle_call_names_fetched_row w c w' tr cl mission_id :
  main C db_path event_str w = (c, w', tr) ->
  In cl (map fst (interactions tr)) -> mission_of cl = Some mission_id ->
  exists q r,
    In (Client_fetchone q, Fetched (Some r)) (interactions tr)
    /\ row_id r = mission_id
    /\ (q = new_work_query \/ q = active_query).
Proof.
  run_main; intros Hin Hm; split_in;
    try discriminate Hm; injection Hm as <-;
    eexists _, _; (split; [pick_in | split; [reflexivity | auto]]).
Qed.

(** When the active query gives no row either, the run makes five calls
    and returns 1, unless closing the client raises. *)
Lemma empty_selection_run w c w' tr :
  main C db_path event_str w = (c, w', tr) ->
  In (Client_fetchone active_query, Fetched None) (interactions tr) ->
  calls tr = [SQLiteClient_new db_path false; Client_health_check;
              Client_fetchone new_work_query;
              Client_fetchone active_query; Client_close]
  /\ (c = Return 1
      \/ exists e, c = Throw e
                   /\ In (Client_close, Raised e) (interactions tr)).
Proof.
  run_main; intros Hin; split_in;
    (split; [reflexivity|]);
    first [left; reflexivity
          | right; eexists; split; [reflexivity | pick_in]].
Qed.

(** A run that returns 0 has completed a mission. *)
Lemma success_completes_a_mission w c w' tr :
  main C db_path event_str w = (c, w', tr) ->
  c = Return 0 ->
  exists m a s n b, In (Runtime_complete_mission m a s n b) (calls tr).
Proof.
  run_main; intros H; try discriminate H;
    eexists _, _, _, _, _; pick_in.
Qed.
End Runs.

Lemma all_equal_to_first {A} (l : list A) :
  match l with
  | [] => True
  | a :: rest => Forall (eq a) rest
  end ->
  forall x y, In x l -> In y l -> x = y.
Proof.
  destruct l as [|a rest]; simpl.
  - intros _ x y [].
  - intros H x y Hx Hy. rewrite Forall_forall in H.
    assert (Hall : forall z, a = z \/ In z rest -> a = z).
    { intros z [?|?]; auto. }
    rewrite <- (Hall x Hx), <- (Hall y Hy). reflexivity.
Qed.

Lemma cons_before {A} (x : A) (l before rest : list A) :
  l = (before ++ rest)%list -> x :: l = ((x :: before) ++ rest)%list.
Proof. intros ->. reflexivity. Qed.

(** What step 4 prints, line by line (lines 113-140). *)
Lemma work_output_lines mission_id :
  work_output mission_id
  = ([Printed (nl ++ repeat_string "=" 60);
      Printed ("EXECUTING MISSION WORK: " ++ mission_id);
      Printed (repeat_string "=" 60);
      Printed "This is where the actual mission work would be executed.";
      Printed "For this demonstration, we'll simulate some work..."]
     ++ map Printed (fst (simulate_work mission_id))
     ++ [Printed ("  Work completed: " ++ work_summary mission_id);
         Printed (repeat_string "=" 60 ++ nl)])%list.
Proof.
  unfold work_output, execute_work, bind, print, ret.
  rewrite print_all_run. reflexivity.
Qed.

(** What lines 153-154 print: the next mission when the result names one
    that is not the empty string, nothing otherwise. *)
Lemma next_report_lines r :
  next_report r
  = match next_mission r with
    | Some next =>
        if String.eqb next "" then []
        else [Printed ("  Next mission: " ++ next)]
    | None => []
    end.
Proof.
  unfold next_report, report_next.
  destruct (next_mission r) as [next|]; auto.
  destruct (String.eqb next ""); reflexivity.
Qed.

(** Split a trace where the banner of step 4 starts. *)
Ltac split_before_work :=
  repeat lazymatch goal with
    | |- Printed (nl ++ repeat_string "=" 60) :: _ = _ => fail
    | |- _ :: _ = _ => apply cons_before
    end;
  exact (eq_refl : _ = ([] ++ _)%list).

Lemma phase_new_work : phase (Client_fetchone new_work_query) = 2%nat.
Proof. reflexivity. Qed.

Lemma phase_active : phase (Client_fetchone active_query) = 3%nat.
Proof. reflexivity. Qed.

Section RunProperties.
Variable W : Type.
Variable C : Collaborators W.
Variable db_path : string.
Variable event_str : mission_event -> string.

(** C5. A call that raises never lets the run return 0; a health probe
    that is not ok makes it return 1; an error one of the [except]
    clauses is written for (the store unavailable while connecting, any
    failure of a query, a lifecycle error in the runtime calls) makes it
    return 1, unless a release in a [finally] raises in its turn; after a
    call that raised nothing is called but the releases, and no call is
    made twice. *)
Theorem errors_abort_the_run :
  forall (w : W) (c : completion unit) (w' : W) (tr : list io),
    main C db_path event_str w = (c, w', tr) ->
    (forall cl e, In (cl, Raised e) (interactions tr) -> c <> Return 0)
    /\ (forall h, In (Client_health_check, Health h) (interactions tr) ->
                  ok h = false -> c = Return 1)
    /\ (forall cl e,
           In (cl, Raised e) (interactions tr) -> handled cl e = true ->
           c = Return 1
           \/ exists rel e',
               c = Throw e' /\ In (rel, Raised e') (interactions tr)
               /\ is_release rel = true)
    /\ nothing_retried (interactions tr)
    /\ NoDup (calls tr).
Proof.
  intros w c w' tr.
  run_main;
    (split; [|split; [|split; [|split]]];
     [ intros ? ? Hin; split_in; discriminate
     | intros ? Hin Hok; split_in; (reflexivity || congruence)
     | intros ? ? Hin Hh; split_in; cbn [handled] in Hh;
       first [ left; reflexivity
             | congruence
             | right; eexists _, _;
               split; [reflexivity | split; [pick_in | reflexivity]] ]
     | cbn [nothing_retried]; repeat (split || constructor)
     | repeat constructor; cbn [In]; intros Hin; split_in; discriminate ]).
Qed.

(** C7. The calls of a run follow the order of [main]: connect and probe,
    new-work query, active query, close, runtime set-up, start, look at
    the current mission, complete, close, each at most once and all
    lifecycle calls for one mission. A run that returns 0 did all of them
    for the mission of the row it fetched: after the start and the look at
    the current mission come the lines of the work step, from the
    EXECUTING MISSION WORK banner to the Work completed line with the
    summary, then the completion call with that summary, then the report
    of the next mission the completion returned (one line naming it, or
    nothing when there is none), then the release of the runtime and the
    line of success. *)
Theorem one_mission_in_order :
  forall (w : W) (c : completion unit) (w' : W) (tr : list io),
    main C db_path event_str w = (c, w', tr) ->
    increasing (map phase (calls tr))
    /\ (List.length (filter is_start (calls tr)) <= 1)%nat
    /\ (List.length (filter is_complete (calls tr)) <= 1)%nat
    /\ (forall m1 m2,
           In m1 (named_missions (calls tr)) ->
           In m2 (named_missions (calls tr)) -> m1 = m2)
    /\ (c = Return 0 ->
        exists h r sr cur cr before fetches,
          tr = (before
                ++ [Printed (nl ++ repeat_string "=" 60);
                    Printed ("EXECUTING MISSION WORK: " ++ row_id r);
                    Printed (repeat_string "=" 60);
                    Printed
                      "This is where the actual mission work would be executed.";
                    Printed
                      "For this demonstration, we'll simulate some work..."]
                ++ map Printed (fst (simulate_work (row_id r)))
                ++ [Printed ("  Work completed: "
                             ++ work_summary (row_id r));
                    Printed (repeat_string "=" 60 ++ nl);
                    Printed ("Completing mission: " ++ row_id r);
                    Called
                      (Runtime_complete_mission (row_id r) "Code Agent"
                         (work_summary (row_id r))
                         ("Mission " ++ row_id r
                          ++ " completed successfully. "
                          ++ work_summary (row_id r))
                         false)
                      (CompletionResult cr);
                    Printed ("✓ Mission " ++ row_id r
                             ++ " completed successfully")]
                ++ match next_mission cr with
                   | Some next =>
                       if String.eqb next "" then []
                       else [Printed ("  Next mission: " ++ next)]
                   | None => []
                   end
                ++ [Called Runtime_close Done;
                    Printed
                      (nl ++ "✓ Mission workflow completed successfully!")]
               )%list
          /\ interactions before
             = ([(SQLiteClient_new db_path false, Done);
                 (Client_health_check, Health h)]
                ++ fetches
                ++ [(Client_close, Done);
                    (MissionRuntime_new, Done);
                    (Runtime_ensure_database, Done);
                    (Runtime_start_mission (row_id r) "Code Agent"
                       ("Starting mission " ++ row_id r) false,
                     StartResult sr);
                    (Runtime_fetch_next_candidate, Fetched cur)])%list
          /\ printed before
             = ([("Connecting to database at: " ++ db_path)%string;
                 "✓ Database connection successful";
                 ("✓ Found mission: " ++ row_id r
                  ++ " (status: " ++ row_status r ++ ")")%string]
                ++ (if existsb (String.eqb (row_status r))
                         ["Queued"; "Not Started"]
                    then [("  Mission " ++ row_id r ++ " is "
                           ++ row_status r
                           ++ " and will be promoted to In Progress"
                          )%string]
                    else [])
                ++ [(nl ++ "Starting mission: " ++ row_id r)%string;
                    ("✓ Mission " ++ row_id r
                     ++ " started successfully")%string;
                    ("  Event: " ++ event_str (event sr))%string;
                    (nl ++ "Verifying current mission status:")%string;
                    match cur with
                    | Some r' =>
                        ("  Current mission: " ++ row_id r'
                         ++ " (status: " ++ row_status r' ++ ")")%string
                    | None => "  No current mission found"
                    end])%list
          /\ ok h = true
          /\ (fetches
              = [(Client_fetchone new_work_query, Fetched (Some r))]
              \/ fetches
                 = [(Client_fetchone new_work_query, Fetched None);
                    (Client_fetchone active_query, Fetched (Some r))])).
Proof.
  intros w c w' tr.
  run_main;
    (split; [|split; [|split; [|split]]];
     [ rewrite ?phase_new_work, ?phase_active;
       cbn [map phase increasing]; repeat (split || constructor)
     | cbn [filter is_start is_complete List.length]; repeat constructor
     | cbn [filter is_start is_complete List.length]; repeat constructor
     | apply all_equal_to_first; cbn [named_missions mission_of];
       repeat constructor
     | intros Hc; try discriminate Hc;
       rewrite work_output_lines, next_report_lines;
       rewrite <- ?app_assoc; cbn [app];
       lazymatch goal with
       | |- context [Called (Client_fetchone active_query)
                            (Fetched (Some ?r0))] =>
           eexists _, r0, _, _, _, _,
             [(Client_fetchone new_work_query, Fetched None);
              (Client_fetchone active_query, Fetched (Some r0))]
       | |- context [Called (Client_fetchone new_work_query)
                            (Fetched (Some ?r0))] =>
           eexists _, r0, _, _, _, _,
             [(Client_fetchone new_work_query, Fetched (Some r0))]
       end;
       (split;
        [ split_before_work
        | split;
          [ reflexivity
          | split;
            [ cbn [printed app];
              match goal with
              | E : existsb _ _ = _ |- _ => rewrite E
              end; reflexivity
            | split; [eassumption|] ] ] ]);
       first [left; reflexivity | right; reflexivity] ]).
Qed.

(** What [main] hands to [complete_mission] is fixed by the mission. *)
Lemma completion_arguments w c w' tr m a s n b :
  main C db_path event_str w = (c, w', tr) ->
  In (Runtime_complete_mission m a s n b) (calls tr) ->
  a = "Code Agent" /\ s = work_summary m
  /\ n = "Mission " ++ m ++ " completed successfully. " ++ work_summary m
  /\ b = false.
Proof.
  run_main; intros Hin; split_in; auto.
Qed.
End RunProperties.


(* ===================================================================== *)
(** * Selection against the store *)
(* ===================================================================== *)

Lemma In_named_missions l mission_id :
  In mission_id (named_missions l) <->
  exists cl, In cl l /\ mission_of cl = Some mission_id.
Proof.
  induction l as [|c rest IH]; simpl.
  - split; [intros [] | intros (cl & [] & _)].
  - destruct (mission_of c) as [m|] eqn:Ec; simpl; rewrite IH; split.
    + intros [<- | (cl & Hin & Hm)]; eauto.
    + intros (cl & [<- | Hin] & Hm); [left; congruence | eauto].
    + intros (cl & Hin & Hm); eauto.
    + intros (cl & [<- | Hin] & Hm); [congruence | eauto].
Qed.

Lemma select_candidate_row t r :
  select_candidate t = Some r ->
  exists m, In m t /\ project m = r /\ candidate_status (status m).
Proof.
  unfold select_candidate, candidate_status.
  destruct (query_one new_work_query t) as [r0|] eqn:E.
  - intros [= ->]. apply query_one_new_work in E.
    destruct E as (m & ? & ? & ?). eauto 6.
  - intros H. apply query_one_active in H.
    destruct H as (m & ? & ? & ?). eauto 6.
Qed.

Section Faithful.
(** A client that, when it answers a query, answers it from table
    [t]. *)
Variable t : table.
Variable W : Type.
Variable C : Collaborators W.
Hypothesis answers_from_table :
  forall q w0 r w1, fetchone C q w0 = (Ok r, w1) -> r = query_one q t.
Variable db_path : string.
Variable event_str : mission_event -> string.
Variables (w : W) (c : completion unit) (w' : W) (tr : list io).
Hypothesis the_run : main C db_path event_str w = (c, w', tr).

Lemma fetched_from_table q r :
  In (Client_fetchone q, Fetched r) (interactions tr) ->
  r = query_one q t.
Proof.
  intros Hin.
  destruct (fetched_by_client W C db_path event_str w c w' tr q r
              the_run Hin) as (w0 & w1 & E).
  eauto.
Qed.

(** The mission of every lifecycle call of the run is a candidate of
    the table, found by one of the two queries. *)
Lemma named_mission_is_candidate mission_id :
  In mission_id (named_missions (calls tr)) ->
  exists q m,
    In (Client_fetchone q, Fetched (Some (project m))) (interactions tr)
    /\ In m t /\ id m = mission_id
    /\ (q = new_work_query /\ new_work_status (status m)
        \/ q = active_query /\ active_status (status m)).
Proof.
  intros Hin. apply In_named_missions in Hin.
  destruct Hin as (cl & Hcl & Hm).
  destruct (lifecycle_call_names_fetched_row W C db_path event_str
              w c w' tr cl mission_id the_run Hcl Hm)
    as (q & r & Hfetch & Hid & Hq).
  pose proof (fetched_from_table q (Some r) Hfetch) as Hr.
  symmetry in Hr. destruct Hq as [-> | ->].
  - destruct (query_one_new_work t r Hr) as (m & Hm1 & Hm2 & Hm3).
    exists new_work_query, m. subst r. auto 6.
  - destruct (query_one_active t r Hr) as (m & Hm1 & Hm2 & Hm3).
    exists active_query, m. subst r. auto 6.
Qed.
End Faithful.

(** C1. With a Queued or Not Started mission in the store, the candidate
    is the row the new-work query returns and is no active-tier mission;
    [main], run on a client that answers from that store, never runs the
    active query, and the mission it starts and completes is a new-work
    one. *)
Theorem new_work_tier_first :
  forall (t : table) (m' : mission),
    In m' t -> new_work_status (status m') ->
    (exists m,
        In m t /\ new_work_status (status m) /\ ~ active_status (status m)
        /\ query_one new_work_query t = Some (project m)
        /\ select_candidate t = Some (project m))
    /\ forall (W : Type) (C : Collaborators W) (db_path : string)
              (event_str : mission_event -> string)
              (w : W) (c : completion unit) (w' : W) (tr : list io),
        (forall q w0 r w1,
            fetchone C q w0 = (Ok r, w1) -> r = query_one q t) ->
        main C db_path event_str w = (c, w', tr) ->
        ~ In (Client_fetchone active_query) (calls tr)
        /\ forall mission_id,
            In mission_id (named_missions (calls tr)) ->
            exists m, In m t /\ id m = mission_id
                      /\ new_work_status (status m).
Proof.
  intros t m' Hin' Hst'.
  destruct (query_one_new_work_some t m' Hin' Hst') as [r Hr].
  split.
  - destruct (query_one_new_work t r Hr) as (m & Hin & <- & Hst).
    exists m. repeat split; auto.
    + intros Hact. exact (tiers_disjoint _ Hst Hact).
    + unfold select_candidate. rewrite Hr. reflexivity.
  - intros W C db_path event_str w c w' tr Hfaith Hrun.
    assert (Hno : ~ In (Client_fetchone active_query) (calls tr)).
    { unfold calls. intros Hin. apply in_map_iff in Hin.
      destruct Hin as ([cl rp] & Hfst & Hin). simpl in Hfst. subst cl.
      pose proof (active_query_after_empty_new_work W C db_path event_str
                    w c w' tr rp Hrun Hin) as Hnone.
      pose proof (fetched_from_table t W C Hfaith db_path event_str
                    w c w' tr Hrun new_work_query None Hnone) as E.
      rewrite Hr in E. discriminate E. }
    split; auto.
    intros mission_id Hnamed.
    destruct (named_mission_is_candidate t W C Hfaith db_path event_str
                w c w' tr Hrun mission_id Hnamed)
      as (q & m & Hfetch & Hin & Hid & [[-> Hst] | [-> Hst]]).
    + exists m. auto.
    + destruct Hno. unfold calls.
      apply (in_map fst) in Hfetch. exact Hfetch.
Qed.

Lemma lifecycle_free cl :
  mission_of cl = None -> is_start cl = false /\ is_complete cl = false.
Proof. destruct cl; simpl; auto; discriminate. Qed.

(** C3. With no mission in any of the four candidate statuses, selection
    yields nothing; [main], run on a client that answers from that store,
    does not return 0 and makes no start or complete call, and once the
    active query has come back empty it has made its five calls and
    returns 1, unless closing the client raises. *)
Theorem no_candidate_no_mission :
  forall (t : table),
    (forall m, In m t -> ~ candidate_status (status m)) ->
    select_candidate t = None
    /\ forall (W : Type) (C : Collaborators W) (db_path : string)
              (event_str : mission_event -> string)
              (w : W) (c : completion unit) (w' : W) (tr : list io),
        (forall q w0 r w1,
            fetchone C q w0 = (Ok r, w1) -> r = query_one q t) ->
        main C db_path event_str w = (c, w', tr) ->
        c <> Return 0
        /\ Forall (fun cl => is_start cl = false /\ is_complete cl = false)
                  (calls tr)
        /\ (In (Client_fetchone active_query, Fetched None)
               (interactions tr) ->
            calls tr = [SQLiteClient_new db_path false; Client_health_check;
                        Client_fetchone new_work_query;
                        Client_fetchone active_query; Client_close]
            /\ (c = Return 1
                \/ exists e, c = Throw e
                             /\ In (Client_close, Raised e)
                                   (interactions tr))).
Proof.
  intros t Hnone.
  assert (Hsel : select_candidate t = None).
  { destruct (select_candidate t) as [r|] eqn:E; auto.
    apply select_candidate_row in E. destruct E as (m & Hin & _ & Hst).
    destruct (Hnone m Hin Hst). }
  split; auto.
  intros W C db_path event_str w c w' tr Hfaith Hrun.
  assert (Hnamed : forall mission_id,
             ~ In mission_id (named_missions (calls tr))).
  { intros mission_id Hin.
    destruct (named_mission_is_candidate t W C Hfaith db_path event_str
                w c w' tr Hrun mission_id Hin)
      as (q & m & _ & Hm & _ & [[_ Hst] | [_ Hst]]);
      apply (Hnone m Hm); unfold candidate_status; auto. }
  split; [|split].
  - intros Hc.
    destruct (success_completes_a_mission W C db_path event_str
                w c w' tr Hrun Hc) as (m & a & s & n & b & Hin).
    apply (Hnamed m). apply In_named_missions. eauto.
  - apply Forall_forall. intros cl Hin. apply lifecycle_free.
    destruct (mission_of cl) as [m|] eqn:E; auto.
    destruct (Hnamed m). apply In_named_missions. eauto.
  - intros Hempty.
    exact (empty_selection_run W C db_path event_str w c w' tr Hrun Hempty).
Qed.

(* ===================================================================== *)
(** * Completion and the next mission *)
(* ===================================================================== *)

Lemma set_status_of_id mission_id st t m :
  In m (Lifecycle.set_status mission_id st t) -> id m = mission_id ->
  status m = st.
Proof.
  unfold Lifecycle.set_status. intros Hin Hid.
  apply in_map_iff in Hin. destruct Hin as (m0 & Hm & _).
  destruct (String.eqb_spec (id m0) mission_id) as [E|E]; subst m.
  - reflexivity.
  - simpl in Hid. contradiction.
Qed.

Lemma completed_is_no_candidate : ~ candidate_status "Completed".
Proof. intros [[H|H]|[H|H]]; discriminate H. Qed.

(** C4. A successful [complete] returns the Completed event it persisted
    and the id of the candidate selected on the store as just written, so
    never the mission just completed. *)
Theorem completion_reports_next_candidate :
  forall (mission_id agent summary notes : string)
         (s s' : Lifecycle.store) (r : completion_result),
    Lifecycle.complete mission_id agent summary notes s = (inr r, s') ->
    completion_event r
    = {| ev_mission := mission_id; ev_kind := Completed; ev_agent := agent;
         ev_summary := summary; ev_notes := Some notes;
         ev_timestamp := Lifecycle.now s |}
    /\ Lifecycle.events s'
       = (Lifecycle.events s ++ [completion_event r])%list
    /\ Lifecycle.missions s'
       = Lifecycle.set_status mission_id "Completed" (Lifecycle.missions s)
    /\ next_mission r
       = option_map row_id (select_candidate (Lifecycle.missions s'))
    /\ next_mission r <> Some mission_id.
Proof.
  intros mission_id agent summary notes s s' r.
  unfold Lifecycle.complete.
  destruct (Lifecycle.findById mission_id (Lifecycle.missions s)) as [m|];
    try discriminate.
  destruct (Lifecycle.completable (status m)); try discriminate.
  intros [= <- <-]. simpl. repeat split.
  unfold Lifecycle.nextCandidate. simpl.
  destruct (select_candidate
              (Lifecycle.set_status mission_id "Completed"
                 (Lifecycle.missions s))) as [nr|] eqn:E; simpl;
    try discriminate.
  intros [= Hid].
  apply select_candidate_row in E. destruct E as (m1 & Hin & <- & Hst).
  simpl in Hid.
  rewrite (set_status_of_id _ _ _ _ Hin Hid) in Hst.
  exact (completed_is_no_candidate Hst).
Qed.


(* ===================================================================== *)
(** * Release of the client and the runtime *)
(* ===================================================================== *)

(** C6. The two exits that release nothing: after a health probe that is
    not ok, [main] returns 1 with the client constructed and never closed;
    when [start_mission] raises, the runtime was constructed and is never
    closed. *)
Theorem release_skipped_on_early_exit :
  forall (W : Type) (C : Collaborators W) (db_path : string)
         (event_str : mission_event -> string)
         (w : W) (c : completion unit) (w' : W) (tr : list io),
    main C db_path event_str w = (c, w', tr) ->
    (forall h,
        In (Client_health_check, Health h) (interactions tr) ->
        ok h = false ->
        c = Return 1
        /\ In (SQLiteClient_new db_path false, Done) (interactions tr)
        /\ ~ In Client_close (calls tr))
    /\ (forall m a s b e,
           In (Runtime_start_mission m a s b, Raised e) (interactions tr) ->
           In (MissionRuntime_new, Done) (interactions tr)
           /\ ~ In Runtime_close (calls tr)).
Proof.
  intros W C db_path event_str w c w' tr.
  run_main;
    (split;
     [ intros ? Hin Hok; split_in; try congruence;
       (split; [reflexivity | split; [pick_in|]]);
       intros Hc; split_in
     | intros ? ? ? ? ? Hin; split_in;
       (split; [pick_in|]); intros Hc; split_in ]).
Qed.

(* ===================================================================== *)
(** * The status vocabulary *)
(* ===================================================================== *)

(** C8 does not hold of the enumerated names: the filters match
    Not Started, which is none of them, and a mission stored as NotStarted
    is matched by neither query. *)
Lemma filters_are_not_the_enumerated_names :
  ~ (forall s, In s filter_statuses -> In s enumerated_names)
  /\ In "NotStarted" enumerated_names
  /\ select_candidate spaceless = None.
Proof.
  split; [|split].
  - intros H. specialize (H "Not Started").
    assert (Hin : In "Not Started" filter_statuses) by (simpl; auto).
    apply H in Hin. simpl in Hin.
    repeat (destruct Hin as [Hin|Hin]; [discriminate Hin|]). exact Hin.
  - simpl. auto.
  - reflexivity.
Qed.

(** C8, amended. The statuses the two queries match are exactly the four
    strings Queued, Not Started, In Progress and Current, compared byte
    for byte; the CASE branches rank the same strings; Completed is matched
    by neither query. *)
Theorem filters_match_four_strings :
  forall (s : string),
    (sql_in s (where_status_in new_work_query) = true
     <-> s = "Queued" \/ s = "Not Started")
    /\ (sql_in s (where_status_in active_query) = true
        <-> s = "In Progress" \/ s = "Current")
    /\ (In s filter_statuses
        <-> In s ["Queued"; "Not Started"; "In Progress"; "Current"])
    /\ map fst (order_by_case new_work_query)
       = where_status_in new_work_query
    /\ map fst (order_by_case active_query)
       = where_status_in active_query
    /\ ~ In "Completed" filter_statuses.
Proof.
  intros s. split; [|split; [|split; [|split; [|split]]]].
  - apply sql_in_new_work.
  - apply sql_in_active.
  - reflexivity.
  - reflexivity.
  - reflexivity.
  - simpl. intros H.
    repeat (destruct H as [H|H]; [discriminate H|]). exact H.
Qed.

(* ===================================================================== *)
(** * The work summary *)
(* ===================================================================== *)

Lemma prefix_app needle hay :
  String.prefix needle hay = true <-> exists post, hay = needle ++ post.
Proof.
  revert hay. induction needle as [|a needle IH]; intros hay.
  - destruct hay; simpl; split; eauto.
  - destruct hay as [|b hay]; simpl.
    + split; [discriminate | intros [post H]; discriminate H].
    + destruct (ascii_dec a b) as [<-|Hab].
      * rewrite IH. split; intros [post H]; exists post; congruence.
      * split; [discriminate | intros [post H]; congruence].
Qed.

Lemma contains_app needle hay :
  contains needle hay = true <->
  exists pre post, hay = pre ++ needle ++ post.
Proof.
  induction hay as [|c hay IH]; cbn [contains];
    rewrite orb_true_iff, prefix_app.
  - split.
    + intros [[post H] | H]; [|discriminate H]. exists "", post. exact H.
    + intros (pre & post & H). left.
      destruct pre; [|discriminate H]. exists post. exact H.
  - rewrite IH. split.
    + intros [[post H] | (pre & post & H)].
      * exists "", post. exact H.
      * exists (String c pre), post. simpl. congruence.
    + intros (pre & post & H). destruct pre as [|c' pre]; simpl in H.
      * left. exists post. exact H.
      * right. exists pre, post. congruence.
Qed.

Lemma lower_app a b : lower (a ++ b) = lower a ++ lower b.
Proof. induction a as [|c a IH]; simpl; congruence. Qed.

Lemma lower_split s a b :
  lower s = a ++ b ->
  exists x y, s = x ++ y /\ lower x = a /\ lower y = b.
Proof.
  revert s. induction a as [|c a IH]; intros s H; simpl in H.
  - exists "", s. auto.
  - destruct s as [|d s]; simpl in H; [discriminate H|].
    injection H as Hc Hs. destruct (IH s Hs) as (x & y & -> & Hx & Hy).
    exists (String d x), y. simpl. repeat split; congruence.
Qed.

(** On a needle without capitals, the test of the source is containment
    up to case. *)
Lemma contains_lower needle hay :
  lower needle = needle ->
  contains needle (lower hay) = true <-> contains_ignoring_case needle hay.
Proof.
  intros Hn. rewrite contains_app. unfold contains_ignoring_case. split.
  - intros (pre & post & H).
    destruct (lower_split _ _ _ H) as (x & y & -> & Hx & Hy).
    destruct (lower_split _ _ _ Hy) as (m & z & -> & Hm & Hz).
    exists x, m, z. split; congruence.
  - intros (pre & mid & post & -> & Hm).
    exists (lower pre), (lower post).
    rewrite !lower_app. congruence.
Qed.

(** C10. The summary handed to [complete_mission] is [work_summary] of
    the mission id: the first of the three needles found in the id, case
    ignored, decides it, and with none found it is the generic one. Two
    runs that complete the same mission pass the same summary. *)
Theorem work_summary_by_precedence :
  forall (mission_id : string),
    (contains_ignoring_case "foundation" mission_id ->
     work_summary mission_id
     = "Implemented foundation utilities with 100% test coverage")
    /\ (~ contains_ignoring_case "foundation" mission_id ->
        contains_ignoring_case "data-protocol" mission_id ->
        work_summary mission_id
        = "Completed data protocol implementation with validation")
    /\ (~ contains_ignoring_case "foundation" mission_id ->
        ~ contains_ignoring_case "data-protocol" mission_id ->
        contains_ignoring_case "test-suite" mission_id ->
        work_summary mission_id = "Completed test suite with 100% coverage")
    /\ (~ contains_ignoring_case "foundation" mission_id ->
        ~ contains_ignoring_case "data-protocol" mission_id ->
        ~ contains_ignoring_case "test-suite" mission_id ->
        work_summary mission_id = "Completed mission work")
    /\ (forall (W : Type) (C : Collaborators W) (db_path : string)
               (event_str : mission_event -> string)
               (w : W) (c : completion unit) (w' : W) (tr : list io)
               (a s n : string) (b : bool),
           main C db_path event_str w = (c, w', tr) ->
           In (Runtime_complete_mission mission_id a s n b) (calls tr) ->
           s = work_summary mission_id)
    /\ (forall (W1 W2 : Type) (C1 : Collaborators W1)
               (C2 : Collaborators W2) (p1 p2 : string)
               (es1 es2 : mission_event -> string)
               (w1 : W1) (w2 : W2) c1 c2 w1' w2' tr1 tr2
               (a1 a2 s1 s2 n1 n2 : string) (b1 b2 : bool),
           main C1 p1 es1 w1 = (c1, w1', tr1) ->
           main C2 p2 es2 w2 = (c2, w2', tr2) ->
           In (Runtime_complete_mission mission_id a1 s1 n1 b1) (calls tr1) ->
           In (Runtime_complete_mission mission_id a2 s2 n2 b2) (calls tr2) ->
           s1 = s2).
Proof.
  intros mission_id.
  assert (Hsummary :
            forall (W : Type) (C : Collaborators W) (db_path : string)
                   (event_str : mission_event -> string)
                   (w : W) (c : completion unit) (w' : W) (tr : list io)
                   (a s n : string) (b : bool),
              main C db_path event_str w = (c, w', tr) ->
              In (Runtime_complete_mission mission_id a s n b) (calls tr) ->
              s = work_summary mission_id).
  { intros W C db_path event_str w c w' tr a s n b Hrun Hin.
    destruct (completion_arguments W C db_path event_str
                w c w' tr mission_id a s n b Hrun Hin) as (_ & Hs & _).
    exact Hs. }
  repeat apply conj.
  5: exact Hsummary.
  5: { intros W1 W2 C1 C2 p1 p2 es1 es2 w1 w2 c1 c2 w1' w2' tr1 tr2
              a1 a2 s1 s2 n1 n2 b1 b2 Hrun1 Hrun2 Hin1 Hin2.
       rewrite (Hsummary W1 C1 p1 es1 w1 c1 w1' tr1 a1 s1 n1 b1 Hrun1 Hin1).
       rewrite (Hsummary W2 C2 p2 es2 w2 c2 w2' tr2 a2 s2 n2 b2 Hrun2 Hin2).
       reflexivity. }
  all: clear Hsummary;
    pose proof (contains_lower "foundation" mission_id eq_refl) as Hf;
    pose proof (contains_lower "data-protocol" mission_id eq_refl) as Hd;
    pose proof (contains_lower "test-suite" mission_id eq_refl) as Ht;
    unfold work_summary, simulate_work;
    destruct (contains "foundation" (lower mission_id));
    [|destruct (contains "data-protocol" (lower mission_id));
      [|destruct (contains "test-suite" (lower mission_id))]];
    cbn [snd]; intros;
    first [reflexivity | exfalso; intuition congruence].
Qed.


(* ===================================================================== *)
(** * The theorems at work on the example stores *)
(* ===================================================================== *)

Lemma frozen_answers_from_table t :
  forall q w0 r w1,
    fetchone (frozen t) q w0 = (Ok r, w1) -> r = query_one q t.
Proof. intros q w0 r w1 [= <- _]. reflexivity. Qed.

Lemma run_is_triple {W} (r : completion unit * W * list io) :
  r = (outcome_of r, world_after r, trace_of r).
Proof. destruct r as [[c w] t]. reflexivity. Qed.

Lemma new_work_tier_first_witness :
  select_candidate abc = Some {| row_id := "A"; row_status := "Queued" |}
  /\ ~ In (Client_fetchone active_query) (calls (trace_of (run_frozen abc)))
  /\ forall mission_id,
      In mission_id (named_missions (calls (trace_of (run_frozen abc)))) ->
      exists m, In m abc /\ id m = mission_id
                /\ new_work_status (status m).
Proof.
  destruct (new_work_tier_first abc
              {| rowid := 1; id := "A"; status := "Queued" |}
              (or_introl eq_refl) (or_introl eq_refl)) as [_ Hrun].
  split; [reflexivity|].
  exact (Hrun world (frozen abc) "cmos/db/cmos.sqlite" show_event
           (world_of abc no_faults) _ _ _
           (frozen_answers_from_table abc) (run_is_triple _)).
Defined.

Lemma selection_order_within_tier_witness :
  exists m,
    query_one new_work_query abc = Some (project m)
    /\ first_match new_work_query abc = Some m
    /\ earliest_in_status "Queued" abc m.
Proof.
  exact (proj1 (selection_order_within_tier abc
                  {| rowid := 1; id := "A"; status := "Queued" |}
                  (or_introl eq_refl))
               eq_refl).
Defined.

Lemma all_done_has_no_candidate :
  forall m, In m all_done -> ~ candidate_status (status m).
Proof.
  intros m [<- | [<- | []]] [[H|H]|[H|H]]; discriminate H.
Defined.

Lemma no_candidate_no_mission_witness :
  select_candidate all_done = None
  /\ outcome_of (run_frozen all_done) <> Return 0
  /\ Forall (fun cl => is_start cl = false /\ is_complete cl = false)
            (calls (trace_of (run_frozen all_done)))
  /\ calls (trace_of (run_frozen all_done))
     = [SQLiteClient_new "cmos/db/cmos.sqlite" false; Client_health_check;
        Client_fetchone new_work_query; Client_fetchone active_query;
        Client_close]
  /\ outcome_of (run_frozen all_done) = Return 1.
Proof.
  destruct (no_candidate_no_mission all_done all_done_has_no_candidate)
    as [Hsel Hrun].
  destruct (Hrun world (frozen all_done) "cmos/db/cmos.sqlite" show_event
              (world_of all_done no_faults) _ _ _
              (frozen_answers_from_table all_done) (run_is_triple _))
    as (Hc & Hnone & Hempty).
  repeat split; auto.
Defined.

Lemma completion_reports_next_candidate_witness :
  exists r s',
    Lifecycle.complete "A" "Code Agent" "done" "notes" abc_started
    = (inr r, s')
    /\ next_mission r = Some "B"
    /\ next_mission r <> Some "A".
Proof.
  eexists _, _. split; [reflexivity|]. split; [reflexivity|].
  exact (proj2 (proj2 (proj2 (proj2
           (completion_reports_next_candidate "A" "Code Agent" "done"
              "notes" abc_started _ _ eq_refl))))).
Defined.

Lemma errors_abort_the_run_witness :
  outcome_of (run (world_of abc fetch_fails)) = Return 1
  /\ nothing_retried
       (interactions (trace_of (run (world_of abc fetch_fails))))
  /\ NoDup (calls (trace_of (run (world_of abc fetch_fails)))).
Proof.
  destruct (errors_abort_the_run world reference "cmos/db/cmos.sqlite"
              show_event (world_of abc fetch_fails) _ _ _
              (run_is_triple _))
    as (_ & _ & _ & Hretry & Hdup).
  split; [reflexivity|]. split; assumption.
Defined.

Lemma release_skipped_on_early_exit_witness :
  outcome_of (run unhealthy_world) = Return 1
  /\ In (SQLiteClient_new "cmos/db/cmos.sqlite" false, Done)
        (interactions (trace_of (run unhealthy_world)))
  /\ ~ In Client_close (calls (trace_of (run unhealthy_world)))
  /\ outcome_of (run (world_of abc start_fails)) = Return 1
  /\ In (MissionRuntime_new, Done)
        (interactions (trace_of (run (world_of abc start_fails))))
  /\ ~ In Runtime_close (calls (trace_of (run (world_of abc start_fails)))).
Proof.
  destruct (release_skipped_on_early_exit world reference
              "cmos/db/cmos.sqlite" show_event unhealthy_world _ _ _
              (run_is_triple _)) as [Hprobe _].
  destruct (release_skipped_on_early_exit world reference
              "cmos/db/cmos.sqlite" show_event (world_of abc start_fails)
              _ _ _ (run_is_triple _)) as [_ Hstart].
  destruct (Hprobe {| ok := false; message := "database is locked" |})
    as (H1 & H2 & H3);
    [vm_compute; auto | reflexivity |].
  destruct (Hstart "A" "Code Agent" "Starting mission A" false
              lifecycle_fault) as (H4 & H5);
    [vm_compute; auto 10 |].
  repeat split; auto.
Defined.

Lemma one_mission_in_order_witness :
  outcome_of (run (world_of abc no_faults)) = Return 0
  /\ calls (trace_of (run (world_of abc no_faults)))
     = [SQLiteClient_new "cmos/db/cmos.sqlite" false; Client_health_check;
        Client_fetchone new_work_query; Client_close; MissionRuntime_new;
        Runtime_ensure_database;
        Runtime_start_mission "A" "Code Agent" "Starting mission A" false;
        Runtime_fetch_next_candidate;
        Runtime_complete_mission "A" "Code Agent" "Completed mission work"
          "Mission A completed successfully. Completed mission work" false;
        Runtime_close]
  /\ printed (trace_of (run (world_of abc no_faults)))
     = ["Connecting to database at: cmos/db/cmos.sqlite";
        "✓ Database connection successful";
        "✓ Found mission: A (status: Queued)";
        "  Mission A is Queued and will be promoted to In Progress";
        nl ++ "Starting mission: A";
        "✓ Mission A started successfully";
        "  Event: Started A";
        nl ++ "Verifying current mission status:";
        "  Current mission: B (status: Not Started)";
        nl ++ repeat_string "=" 60;
        "EXECUTING MISSION WORK: A";
        repeat_string "=" 60;
        "This is where the actual mission work would be executed.";
        "For this demonstration, we'll simulate some work...";
        "  - Executing generic mission work...";
        "  Work completed: Completed mission work";
        repeat_string "=" 60 ++ nl;
        "Completing mission: A";
        "✓ Mission A completed successfully";
        "  Next mission: B";
        nl ++ "✓ Mission workflow completed successfully!"]
  /\ increasing
       (map phase (calls (trace_of (run (world_of abc no_faults)))))
  /\ (exists before cr,
        next_mission cr = Some "B"
        /\ trace_of (run (world_of abc no_faults))
           = (before
              ++ [Printed "✓ Mission A completed successfully";
                  Printed "  Next mission: B";
                  Called Runtime_close Done;
                  Printed
                    (nl ++ "✓ Mission workflow completed successfully!")]
             )%list
        /\ In (Runtime_complete_mission "A" "Code Agent"
                 "Completed mission work"
                 "Mission A completed successfully. Completed mission work"
                 false, CompletionResult cr)
              (interactions before)).
Proof.
  destruct (one_mission_in_order world reference "cmos/db/cmos.sqlite"
              show_event (world_of abc no_faults) _ _ _ (run_is_triple _))
    as (Hinc & _ & _ & _ & Hshape).
  destruct (Hshape eq_refl) as (h & r & sr & cur & cr & before & _).
  split; [reflexivity|]. split; [reflexivity|]. split; [reflexivity|].
  split; [exact Hinc|].
  exists (firstn 27 (trace_of (run (world_of abc no_faults)))).
  eexists. split; [|split; [reflexivity|]].
  2: { vm_compute. repeat first [left; reflexivity | right]. }
  reflexivity.
Defined.

Lemma selected_status_is_candidate_witness :
  In "Queued" ["Queued"; "Not Started"; "In Progress"; "Current"]
  /\ "Queued" <> "Completed"
  /\ exists m, In m abc /\ id m = "A" /\ status m = "Queued".
Proof.
  exact (proj2 (proj2 (selected_status_is_candidate abc
                         {| row_id := "A"; row_status := "Queued" |}))
               eq_refl).
Defined.

Lemma work_summary_by_precedence_witness :
  work_summary "B2.1-Data-Protocol-foundation"
  = "Implemented foundation utilities with 100% test coverage"
  /\ work_summary "B2.2-DATA-PROTOCOL"
     = "Completed data protocol implementation with validation".
Proof.
  split.
  - apply (proj1 (work_summary_by_precedence
                    "B2.1-Data-Protocol-foundation")).
    exists "B2.1-Data-Protocol-", "foundation", "". split; reflexivity.
  - apply (proj1 (proj2 (work_summary_by_precedence "B2.2-DATA-PROTOCOL"))).
    + intros Hc.
      apply (contains_lower "foundation" "B2.2-DATA-PROTOCOL" eq_refl) in Hc.
      discriminate Hc.
    + exists "B2.2-", "DATA-PROTOCOL", "". split; reflexivity.
Defined.


(* ===================================================================== *)
(** * More on the two queries *)
(* ===================================================================== *)

Lemma query_one_active_some t m' :
  In m' t -> active_status (status m') ->
  exists r, query_one active_query t = Some r.
Proof.
  intros Hin Hst. apply sql_in_active in Hst.
  destruct (first_match_some active_query eq_refl t m' Hin Hst) as [m Hm].
  exists (project m). auto using query_one_of_first_match.
Qed.

(** X1. Selection finds a mission exactly when the store holds one in a
    candidate status. *)
Theorem selection_empty_iff_no_candidate :
  forall (t : table),
    select_candidate t = None
    <-> forall m, In m t -> ~ candidate_status (status m).
Proof.
  intros t. split.
  - unfold select_candidate. intros Hsel m Hin [Hst|Hst].
    + destruct (query_one_new_work_some t m Hin Hst) as [r Hr].
      rewrite Hr in Hsel. discriminate Hsel.
    + destruct (query_one new_work_query t); [discriminate Hsel|].
      destruct (query_one_active_some t m Hin Hst) as [r Hr].
      rewrite Hr in Hsel. discriminate Hsel.
  - intros Hnone. destruct (select_candidate t) as [r|] eqn:E; auto.
    apply select_candidate_row in E. destruct E as (m & Hin & _ & Hst).
    destruct (Hnone m Hin Hst).
Qed.

(** X2. With no new work in the store, a mission in progress is resumed:
    the candidate is the row of the active query, the earliest In Progress
    one, or with none of those the earliest Current one. *)
Theorem active_work_is_resumed :
  forall (t : table) (m' : mission),
    (forall m, In m t -> ~ new_work_status (status m)) ->
    In m' t -> active_status (status m') ->
    select_candidate t = query_one active_query t
    /\ exists m,
        select_candidate t = Some (project m)
        /\ (earliest_in_status "In Progress" t m
            \/ (forall m0, In m0 t -> status m0 <> "In Progress")
               /\ earliest_in_status "Current" t m).
Proof.
  intros t m' Hnone Hin' Hst'.
  assert (Hsel : select_candidate t = query_one active_query t).
  { unfold select_candidate.
    rewrite (query_one_new_work_none t Hnone). reflexivity. }
  split; auto. rewrite Hsel.
  destruct (existsb (fun m => String.eqb (status m) "In Progress") t)
    eqn:Eany.
  - apply existsb_exists in Eany. destruct Eany as (m1 & Hin1 & Hst1).
    apply String.eqb_eq in Hst1.
    destruct (tier_first_status active_query "In Progress" "Current"
                eq_refl eq_refl eq_refl in_progress_is_not_current
                t m1 Hin1 Hst1) as (m & Hm & He).
    exists m. auto using query_one_of_first_match.
  - assert (Hno : forall m0, In m0 t -> status m0 <> "In Progress").
    { intros m0 Hin0 Hst0.
      assert (Hex : existsb (fun m => String.eqb (status m) "In Progress") t
                    = true).
      { apply existsb_exists. exists m0. split; auto.
        apply String.eqb_eq. exact Hst0. }
      rewrite Hex in Eany. discriminate Eany. }
    destruct Hst' as [Hst'|Hst']; [destruct (Hno m' Hin' Hst')|].
    destruct (tier_second_status active_query "In Progress" "Current"
                eq_refl eq_refl eq_refl in_progress_is_not_current
                t m' Hno Hin' Hst') as (m & Hm & He).
    exists m. auto using query_one_of_first_match.
Qed.

Lemma null_cmp_lt_gt a b : null_cmp a b = Lt -> null_cmp b a = Gt.
Proof. intros H. rewrite null_cmp_antisym, H. reflexivity. Qed.

Lemma key_leb_antisym k1 k2 :
  key_leb k1 k2 = true -> key_leb k2 k1 = true -> k1 = k2.
Proof.
  destruct k1 as [o1 z1], k2 as [o2 z2]. unfold key_leb. simpl.
  destruct (null_cmp o1 o2) eqn:E12; try discriminate.
  - apply null_cmp_eq in E12. subst o2. rewrite null_cmp_refl.
    rewrite !Z.leb_le. intros H1 H2. f_equal. lia.
  - rewrite (null_cmp_lt_gt _ _ E12). discriminate.
Qed.

Lemma same_rowid_same_row (t : table) m1 m2 :
  NoDup (map rowid t) -> In m1 t -> In m2 t -> rowid m1 = rowid m2 ->
  m1 = m2.
Proof.
  induction t as [|m t IH]; simpl; intros Hnd H1 H2 Hr; [destruct H1|].
  inversion Hnd as [|x l Hnotin Hnd']; subst.
  destruct H1 as [<-|H1], H2 as [<-|H2]; auto.
  - destruct Hnotin. rewrite Hr. apply in_map. exact H2.
  - destruct Hnotin. rewrite <- Hr. apply in_map. exact H1.
Qed.

Section SameRows.
Variable q : select_query.
Hypothesis limit_one : limit q = 1%nat.
Variables t1 t2 : table.
Hypothesis same_rows : Permutation t1 t2.
Hypothesis rowids_differ : NoDup (map rowid t1).

Lemma first_match_same_rows : first_match q t1 = first_match q t2.
Proof.
  destruct (first_match q t1) as [m1|] eqn:E1.
  - destruct (first_match_least q limit_one t1 m1 E1) as (Hin1 & Hw1 & Hl1).
    assert (Hin12 : In m1 t2) by (eapply Permutation_in; eauto).
    destruct (first_match_some q limit_one t2 m1 Hin12 Hw1) as [m2 E2].
    destruct (first_match_least q limit_one t2 m2 E2) as (Hin2 & Hw2 & Hl2).
    assert (Hin21 : In m2 t1)
      by (eapply Permutation_in; [apply Permutation_sym|]; eauto).
    pose proof (key_leb_antisym _ _ (Hl1 m2 Hin21 Hw2) (Hl2 m1 Hin12 Hw1))
      as Hkey.
    unfold sort_key in Hkey. injection Hkey as _ Hrow.
    rewrite E2. f_equal.
    apply (same_rowid_same_row t1); auto.
  - symmetry. apply (first_match_none q limit_one). intros m Hin.
    destruct (sql_in (status m) (where_status_in q)) eqn:Ew; auto.
    assert (Hin1 : In m t1)
      by (eapply Permutation_in; [apply Permutation_sym|]; eauto).
    destruct (first_match_some q limit_one t1 m Hin1 Ew) as [m1 E].
    rewrite E in E1. discriminate E1.
Qed.
End SameRows.

(** X3. The candidate depends on the rows of the table, not on the order
    they are stored in: two tables with the same rows, no rowid used
    twice, give the same candidate. *)
Theorem selection_ignores_storage_order :
  forall (t1 t2 : table),
    Permutation t1 t2 -> NoDup (map rowid t1) ->
    query_one new_work_query t1 = query_one new_work_query t2
    /\ query_one active_query t1 = query_one active_query t2
    /\ select_candidate t1 = select_candidate t2.
Proof.
  intros t1 t2 Hperm Hnd.
  assert (Hnew : query_one new_work_query t1 = query_one new_work_query t2).
  { rewrite !query_one_first_match.
    rewrite (first_match_same_rows new_work_query eq_refl t1 t2 Hperm Hnd).
    reflexivity. }
  assert (Hact : query_one active_query t1 = query_one active_query t2).
  { rewrite !query_one_first_match.
    rewrite (first_match_same_rows active_query eq_refl t1 t2 Hperm Hnd).
    reflexivity. }
  repeat split; auto.
  unfold select_candidate. rewrite Hnew, Hact. reflexivity.
Qed.

Lemma matching_without q t1 m t2 :
  sql_in (status m) (where_status_in q) = false ->
  matching q (t1 ++ m :: t2)%list = matching q (t1 ++ t2)%list.
Proof.
  intros H. unfold matching. rewrite !filter_app. simpl. rewrite H.
  reflexivity.
Qed.

(** X4. A mission outside the four candidate statuses (a Completed one,
    say) has no part in the choice: with or without its row the two
    queries and the selection give the same result. *)
Theorem finished_rows_do_not_matter :
  forall (t1 t2 : table) (m : mission),
    ~ candidate_status (status m) ->
    query_one new_work_query (t1 ++ m :: t2)%list
    = query_one new_work_query (t1 ++ t2)%list
    /\ query_one active_query (t1 ++ m :: t2)%list
       = query_one active_query (t1 ++ t2)%list
    /\ select_candidate (t1 ++ m :: t2)%list
       = select_candidate (t1 ++ t2)%list.
Proof.
  intros t1 t2 m Hst.
  assert (Hnew : sql_in (status m) (where_status_in new_work_query) = false).
  { destruct (sql_in (status m) (where_status_in new_work_query)) eqn:E; auto.
    apply sql_in_new_work in E. destruct Hst. left. exact E. }
  assert (Hact : sql_in (status m) (where_status_in active_query) = false).
  { destruct (sql_in (status m) (where_status_in active_query)) eqn:E; auto.
    apply sql_in_active in E. destruct Hst. right. exact E. }
  unfold select_candidate, query_one, run_query.
  rewrite (matching_without new_work_query t1 m t2 Hnew).
  rewrite (matching_without active_query t1 m t2 Hact).
  repeat split; reflexivity.
Qed.


(* ===================================================================== *)
(** * More on the runs of [main] *)
(* ===================================================================== *)

Section MoreRunProperties.
Variable W : Type.
Variable C : Collaborators W.
Variable db_path : string.
Variable event_str : mission_event -> string.

(** X5. No query is sent unless the client was constructed and its
    health probe came back ok. *)
Theorem queries_need_a_healthy_store :
  forall (w : W) (c : completion unit) (w' : W) (tr : list io)
         (q : select_query),
    main C db_path event_str w = (c, w', tr) ->
    In (Client_fetchone q) (calls tr) ->
    In (SQLiteClient_new db_path false, Done) (interactions tr)
    /\ exists h, In (Client_health_check, Health h) (interactions tr)
                 /\ ok h = true.
Proof.
  intros w c w' tr q.
  run_main; intros Hin; split_in;
    (split; [pick_in | eexists; split; [pick_in | assumption]]).
Qed.

(** X6. Once a query has been sent, [client.close()] is called whatever
    the queries do, and the runtime is constructed only after that call
    has returned. *)
Theorem client_closed_after_selection :
  forall (w : W) (c : completion unit) (w' : W) (tr : list io),
    main C db_path event_str w = (c, w', tr) ->
    (In (Client_fetchone new_work_query) (calls tr) ->
     In Client_close (calls tr))
    /\ (In MissionRuntime_new (calls tr) ->
        In (Client_close, Done) (interactions tr)).
Proof.
  intros w c w' tr.
  run_main; (split; intros Hin; split_in; pick_in).
Qed.

(** X7. Once [complete_mission] has been called, [runtime.close()] is
    called whether it returned or raised. *)
Theorem runtime_closed_after_completion :
  forall (w : W) (c : completion unit) (w' : W) (tr : list io)
         (m a s n : string) (b : bool),
    main C db_path event_str w = (c, w', tr) ->
    In (Runtime_complete_mission m a s n b) (calls tr) ->
    In Runtime_close (calls tr).
Proof.
  intros w c w' tr m a s n b.
  run_main; intros Hin; split_in; pick_in.
Qed.

(** X8. [main] returns 0 exactly when [complete_mission] returned a result
    and [runtime.close()] returned after it. *)
Theorem success_iff_completed_and_closed :
  forall (w : W) (c : completion unit) (w' : W) (tr : list io),
    main C db_path event_str w = (c, w', tr) ->
    c = Return 0
    <-> (exists m a s n b r,
            In (Runtime_complete_mission m a s n b, CompletionResult r)
               (interactions tr))
        /\ In (Runtime_close, Done) (interactions tr).
Proof.
  intros w c w' tr.
  run_main; (split;
    [ intros Hc; try discriminate Hc;
      (split; [eexists _, _, _, _, _, _; pick_in | pick_in])
    | intros [(? & ? & ? & ? & ? & ? & Hin) Hclose]; split_in;
      reflexivity ]).
Qed.

(** X9. [main] ends in [return 0], in [return 1], or by an exception; an
    exception that leaves [main] was raised by one of its calls and is one
    no [except] clause around that call catches. *)
Theorem outcome_is_zero_one_or_uncaught :
  forall (w : W) (c : completion unit) (w' : W) (tr : list io),
    main C db_path event_str w = (c, w', tr) ->
    c = Return 0 \/ c = Return 1
    \/ exists cl e, c = Throw e
                    /\ In (cl, Raised e) (interactions tr)
                    /\ handled cl e = false.
Proof.
  intros w c w' tr.
  run_main;
    first [ left; reflexivity
          | right; left; reflexivity
          | right; right; eexists _, _;
            split; [reflexivity | split; [pick_in|]];
            cbn [handled]; first [assumption | reflexivity] ].
Qed.

(** X10. The lifecycle calls are made for agent Code Agent and never ask
    to append to a file; the summary of the start is Starting mission
    followed by the id, the notes of the completion are built from the id
    and the work summary. *)
Theorem lifecycle_call_arguments :
  forall (w : W) (c : completion unit) (w' : W) (tr : list io)
         (cl : call) (m : string),
    main C db_path event_str w = (c, w', tr) ->
    In cl (calls tr) -> mission_of cl = Some m ->
    cl = Runtime_start_mission m "Code Agent" ("Starting mission " ++ m)
           false
    \/ cl = Runtime_complete_mission m "Code Agent" (work_summary m)
              ("Mission " ++ m ++ " completed successfully. "
               ++ work_summary m) false.
Proof.
  intros w c w' tr cl m.
  run_main; intros Hin Hm; split_in; try discriminate Hm;
    injection Hm as <-; first [left; reflexivity | right; reflexivity].
Qed.
End MoreRunProperties.


Lemma printed_app t1 t2 :
  printed (t1 ++ t2) = (printed t1 ++ printed t2)%list.
Proof.
  induction t1 as [|[cl r|line] t1 IH]; simpl; auto. rewrite IH. reflexivity.
Qed.

Lemma last_cons_more {A} (a b : A) l d : last (a :: b :: l) d = last (b :: l) d.
Proof. reflexivity. Qed.

Lemma last_app_cons {A} (l1 : list A) a l2 d :
  last (l1 ++ a :: l2) d = last (a :: l2) d.
Proof.
  induction l1 as [|x l1 IH]; auto.
  simpl app. rewrite <- IH. destruct l1; reflexivity.
Qed.

Lemma last_cons_app {A} (x : A) l1 a l2 d :
  last (x :: l1 ++ a :: l2) d = last (a :: l2) d.
Proof. exact (last_app_cons (x :: l1) a l2 d). Qed.

Lemma last_app_app {A} (l0 l1 : list A) a l2 d :
  last (l0 ++ l1 ++ a :: l2) d = last (a :: l2) d.
Proof. rewrite app_assoc. apply last_app_cons. Qed.

(** The last line of a list of lines whose end is known. *)
Ltac last_line :=
  cbn [printed app];
  repeat (rewrite printed_app; cbn [printed app]);
  rewrite <- ?app_assoc; cbn [app];
  repeat first
    [ rewrite last_cons_more
    | rewrite last_cons_app
    | rewrite last_app_app
    | rewrite last_app_cons ];
  cbn [last].

Section Output.
Variable W : Type.
Variable C : Collaborators W.
Variable db_path : string.
Variable event_str : mission_event -> string.

(** X11. What the output says of the outcome: the first line names the
    database, a run that returns 1 ends its output with a line that starts
    with the cross, and a run that returns 0 ends it with the line of
    success. *)
Theorem output_tells_the_outcome :
  forall (w : W) (c : completion unit) (w' : W) (tr : list io),
    main C db_path event_str w = (c, w', tr) ->
    hd_error (printed tr) = Some ("Connecting to database at: " ++ db_path)
    /\ (c = Return 1 ->
        String.prefix "✗ " (last (printed tr) "") = true)
    /\ (c = Return 0 ->
        last (printed tr) ""
        = nl ++ "✓ Mission workflow completed successfully!").
Proof.
  intros w c w' tr.
  run_main;
    (split; [reflexivity | split; intros Hc; try discriminate Hc];
     last_line; reflexivity).
Qed.
End Output.

Lemma selection_empty_iff_no_candidate_witness :
  select_candidate all_done = None /\ ~ candidate_status "Blocked".
Proof.
  split; [reflexivity|].
  exact (proj1 (selection_empty_iff_no_candidate all_done) eq_refl
           {| rowid := 2; id := "B"; status := "Blocked" |}
           (or_intror (or_introl eq_refl))).
Defined.

Lemma active_work_is_resumed_witness :
  select_candidate shuffled
  = Some {| row_id := "B"; row_status := "In Progress" |}
  /\ select_candidate shuffled = query_one active_query shuffled.
Proof.
  split; [reflexivity|].
  apply (active_work_is_resumed shuffled
           {| rowid := 4; id := "D"; status := "Current" |}).
  - intros m [<- | [<- | [<- | [<- | []]]]] [H|H]; discriminate H.
  - simpl. auto.
  - right. reflexivity.
Defined.

Lemma selection_ignores_storage_order_witness :
  select_candidate (rev abc) = select_candidate abc.
Proof.
  apply (selection_ignores_storage_order (rev abc) abc).
  - apply Permutation_sym, Permutation_rev.
  - simpl. repeat constructor; simpl; intuition discriminate.
Defined.

Lemma finished_rows_do_not_matter_witness :
  select_candidate
    ({| rowid := 0; id := "Z"; status := "Completed" |} :: abc)
  = select_candidate abc.
Proof.
  apply (finished_rows_do_not_matter []
           abc {| rowid := 0; id := "Z"; status := "Completed" |}).
  intros [[H|H]|[H|H]]; discriminate H.
Defined.


Lemma queries_need_a_healthy_store_witness :
  In (SQLiteClient_new "cmos/db/cmos.sqlite" false, Done)
     (interactions (trace_of (run (world_of abc no_faults))))
  /\ exists h,
      In (Client_health_check, Health h)
         (interactions (trace_of (run (world_of abc no_faults))))
      /\ ok h = true.
Proof.
  apply (queries_need_a_healthy_store world reference "cmos/db/cmos.sqlite"
           show_event (world_of abc no_faults) _ _ _ new_work_query
           (run_is_triple _)).
  vm_compute. auto.
Defined.

Lemma client_closed_after_selection_witness :
  In Client_close (calls (trace_of (run (world_of abc fetch_fails)))).
Proof.
  apply (proj1 (client_closed_after_selection world reference
                  "cmos/db/cmos.sqlite" show_event
                  (world_of abc fetch_fails) _ _ _ (run_is_triple _))).
  vm_compute. auto.
Defined.

Lemma runtime_closed_after_completion_witness :
  outcome_of (run (world_of abc complete_fails)) = Return 1
  /\ In Runtime_close (calls (trace_of (run (world_of abc complete_fails)))).
Proof.
  split; [reflexivity|].
  apply (runtime_closed_after_completion world reference
           "cmos/db/cmos.sqlite" show_event (world_of abc complete_fails)
           _ _ _ "A" "Code Agent" "Completed mission work"
           "Mission A completed successfully. Completed mission work" false
           (run_is_triple _)).
  vm_compute. auto 12.
Defined.

Lemma success_iff_completed_and_closed_witness :
  In (Runtime_close, Done)
     (interactions (trace_of (run (world_of abc no_faults)))).
Proof.
  apply (proj1 (success_iff_completed_and_closed world reference
                  "cmos/db/cmos.sqlite" show_event (world_of abc no_faults)
                  _ _ _ (run_is_triple _))).
  reflexivity.
Defined.

Lemma outcome_is_zero_one_or_uncaught_witness :
  outcome_of (run (world_of abc runtime_close_fails)) = Throw close_fault
  /\ (outcome_of (run (world_of abc runtime_close_fails)) = Return 0
      \/ outcome_of (run (world_of abc runtime_close_fails)) = Return 1
      \/ exists cl e,
          outcome_of (run (world_of abc runtime_close_fails)) = Throw e
          /\ In (cl, Raised e)
                (interactions
                   (trace_of (run (world_of abc runtime_close_fails))))
          /\ handled cl e = false).
Proof.
  split; [reflexivity|].
  exact (outcome_is_zero_one_or_uncaught world reference
           "cmos/db/cmos.sqlite" show_event
           (world_of abc runtime_close_fails) _ _ _ (run_is_triple _)).
Defined.

Lemma lifecycle_call_arguments_witness :
  Runtime_complete_mission "A" "Code Agent" "Completed mission work"
    "Mission A completed successfully. Completed mission work" false
  = Runtime_start_mission "A" "Code Agent" ("Starting mission " ++ "A")
      false
  \/ Runtime_complete_mission "A" "Code Agent" "Completed mission work"
       "Mission A completed successfully. Completed mission work" false
     = Runtime_complete_mission "A" "Code Agent" (work_summary "A")
         ("Mission " ++ "A" ++ " completed successfully. "
          ++ work_summary "A") false.
Proof.
  apply (lifecycle_call_arguments world reference "cmos/db/cmos.sqlite"
           show_event (world_of abc no_faults) _ _ _ _ "A"
           (run_is_triple _)).
  - vm_compute. auto 12.
  - reflexivity.
Defined.

Lemma output_tells_the_outcome_witness :
  last (printed (trace_of (run (world_of abc fetch_fails)))) ""
  = "✗ Error querying missions: no such table: missions"
  /\ String.prefix "✗ "
       (last (printed (trace_of (run (world_of abc fetch_fails)))) "")
     = true.
Proof.
  split; [reflexivity|].
  apply (proj1 (proj2 (output_tells_the_outcome world reference
                         "cmos/db/cmos.sqlite" show_event
                         (world_of abc fetch_fails) _ _ _
                         (run_is_triple _)))).
  reflexivity.
Defined.
